(** * flatten-js: the ray primitive and the ray-shooting containment test

    A shallow embedding of [classes/ray.js] and [algorithms/ray_shooting.js].
    JavaScript numbers are IEEE 754 binary64 values, so coordinates are
    Rocq's primitive floats and every comparison below is the IEEE one.
    Counters and array indices, which only ever hold small non-negative
    integers, are [nat]. *)

From Stdlib Require Import List Bool Arith Lia String ZArith.
From Stdlib Require Import PrimFloat FloatClass.
Import ListNotations.

(** ** Outcomes of a JavaScript computation *)

(** The conditions the code can raise: the two members of [Errors] that are
    reachable from here, and the engine's own [TypeError] (reading a property
    of [undefined], iterating a non-iterable). *)
Inductive Error : Type :=
| ILLEGAL_PARAMETERS
| ZERO_DIVISION
| TypeError.

(** A call returns a value, throws, or is still running when the fuel given
    to its [while] loops is used up. *)
Inductive outcome (A : Type) : Type :=
| Ret (a : A)
| Throw (e : Error)
| OutOfFuel.

Arguments Ret {A} a.
Arguments Throw {A} e.
Arguments OutOfFuel {A}.

Definition bind {A B : Type} (m : outcome A) (k : A -> outcome B) : outcome B :=
  match m with
  | Ret a => k a
  | Throw e => Throw e
  | OutOfFuel => OutOfFuel
  end.

Notation "x <- m ;; k" := (bind m (fun x => k))
  (at level 61, m at next level, right associativity).

(** Reading a property of a value that may be [undefined]. *)
Definition defined {A : Type} (o : option A) : outcome A :=
  match o with
  | Some a => Ret a
  | None => Throw TypeError
  end.

(** ** Numbers *)

Module Number.
Definition POSITIVE_INFINITY : float := infinity.
Definition NEGATIVE_INFINITY : float := neg_infinity.
End Number.

(** JavaScript's relational operators on numbers. *)
Definition lt (a b : float) : bool := PrimFloat.ltb a b.
Definition gt (a b : float) : bool := PrimFloat.ltb b a.
Definition le (a b : float) : bool := PrimFloat.leb a b.
Definition ge (a b : float) : bool := PrimFloat.leb b a.
Definition eq (a b : float) : bool := PrimFloat.eqb a b.

Module Math.
(** [Math.PI], the double nearest to pi. *)
Definition PI : float := 0x1.921fb54442d18p+1%float.

Definition sqrt (a : float) : float := PrimFloat.sqrt a.

(** [Math.min] and [Math.max] of two numbers: NaN is contagious and
    [-0] is below [+0]. *)
Definition min (a b : float) : float :=
  if is_nan a || is_nan b then nan
  else if lt a b then a
  else if lt b a then b
  else match classify a with NZero => a | _ => b end.

Definition max (a b : float) : float :=
  if is_nan a || is_nan b then nan
  else if lt a b then b
  else if lt b a then a
  else match classify a with PZero => a | _ => b end.

(** [Math.atan2(y, x)].  ECMAScript fixes the result exactly when an
    argument is NaN, when [y] is a zero and [x] is positive or [+0] (the
    result is [y], sign included), and when [y] is finite and [x] is
    [+Infinity] (a zero of the sign of [y]); everywhere else the result is
    implementation-approximated and is left to the engine [approx]. *)
Definition atan2 (approx : float -> float -> float) (y x : float) : float :=
  if is_nan y || is_nan x then nan
  else if is_zero y &&
          (lt 0%float x || match classify x with PZero => true | _ => false end)
       then y
  else if is_finite y && is_infinity x && lt 0%float x
       then (if lt 0%float y then 0%float else (- 0)%float)
  else approx y x.
End Math.

(** ** Tolerance predicates *)

(** Modelled from the spec: [utils/utils.js] is not among the sources.  The
    spec calls these fixed-epsilon floating comparisons sharing one epsilon;
    they are written here the way the library writes them. *)
Module Utils.
(** [DP_TOL = 0.000001], as the double the literal denotes. *)
Definition DP_TOL : float := 0x1.0c6f7a0b5ed8dp-20%float.

Definition EQ_0 (x : float) : bool := lt x DP_TOL && gt x (- DP_TOL)%float.
Definition EQ (x y : float) : bool :=
  lt (x - y)%float DP_TOL && gt (x - y)%float (- DP_TOL)%float.
Definition GT (x y : float) : bool := gt (x - y)%float DP_TOL.
Definition GE (x y : float) : bool := gt (x - y)%float (- DP_TOL)%float.
Definition LT (x y : float) : bool := lt (x - y)%float (- DP_TOL)%float.
Definition LE (x y : float) : bool := lt (x - y)%float DP_TOL.
End Utils.
Import Utils.

(** ** Points, vectors, boxes *)

(** Modelled from the spec: [classes/box.js] is not among the sources.  A box
    is its four bounds, given to the constructor in the order
    [xmin, ymin, xmax, ymax]; two boxes are disjoint when one lies strictly
    beyond the other along an axis. *)
Module Box.
Record t : Type := mk { xmin : float; ymin : float; xmax : float; ymax : float }.

Definition not_intersect (b other : t) : bool :=
  lt (xmax b) (xmin other) || gt (xmin b) (xmax other) ||
  lt (ymax b) (ymin other) || gt (ymin b) (ymax other).

Definition intersect (b other : t) : bool := negb (not_intersect b other).

(** [new Box()] has undefined bounds; an undefined bound is encoded as NaN,
    which every comparison treats the same way. *)
Definition empty : t := mk nan nan nan nan.

Definition merge (b other : t) : t :=
  mk (if is_nan (xmin b) then xmin other else Math.min (xmin b) (xmin other))
     (if is_nan (ymin b) then ymin other else Math.min (ymin b) (ymin other))
     (if is_nan (xmax b) then xmax other else Math.max (xmax b) (xmax other))
     (if is_nan (ymax b) then ymax other else Math.max (ymax b) (ymax other)).
End Box.

(** Modelled from the spec: [classes/vector.js] is not among the sources.
    Dot and cross product, the slope accessor (angle of the vector in
    [0, 2*PI)), and normalisation, which fails on a vector of zero length. *)
Module Vector.
Record t : Type := mk { x : float; y : float }.

Definition dot (v w : t) : float := (x v * x w + y v * y w)%float.
Definition cross (v w : t) : float := (x v * y w - y v * x w)%float.
Definition length (v : t) : float := Math.sqrt (dot v v).

Definition slope (approx : float -> float -> float) (v : t) : float :=
  let angle := Math.atan2 approx (y v) (x v) in
  if lt angle 0%float then (2 * Math.PI + angle)%float else angle.

Definition normalize (v : t) : outcome t :=
  if negb (EQ_0 (length v))
  then Ret (mk (x v / length v)%float (y v / length v)%float)
  else Throw ZERO_DIVISION.

Definition rotate90CCW (v : t) : t := mk (- y v)%float (x v).
Definition clone (v : t) : t := mk (x v) (y v).
End Vector.

(** Modelled from the spec: [classes/point.js] is not among the sources.
    Tolerance equality, translation by a vector and the degenerate box. *)
Module Point.
Record t : Type := mk { x : float; y : float }.

Definition equalTo (p q : t) : bool := EQ (x p) (x q) && EQ (y p) (y q).
Definition translate (p : t) (v : Vector.t) : t :=
  mk (x p + Vector.x v)%float (y p + Vector.y v)%float.
Definition box (p : t) : Box.t := Box.mk (x p) (y p) (x p) (y p).
Definition clone (p : t) : t := mk (x p) (y p).
End Point.

(** Modelled from the spec: the constructor [new Vector(p1, p2)] of the
    absent [classes/vector.js], the vector from [p1] to [p2]. *)
Definition Vector_of_points (p1 p2 : Point.t) : Vector.t :=
  Vector.mk (Point.x p2 - Point.x p1)%float (Point.y p2 - Point.y p1)%float.

(** Modelled from the spec: [classes/line.js] is not among the sources.  A
    line is built from a point and a normal vector; a point is on it when it
    equals the anchor or its offset from the anchor is orthogonal to the
    normal, both under tolerance. *)
Module Line.
Record t : Type := mk { pt : Point.t; norm : Vector.t }.

(** [new Line(pt, norm)]. *)
Definition new (p : Point.t) (n : Vector.t) : t :=
  mk (Point.clone p) (Vector.clone n).

(** [new Line(p1, p2)]: the line through two distinct points. *)
Definition through (p1 p2 : Point.t) : outcome t :=
  if Point.equalTo p1 p2 then Throw ILLEGAL_PARAMETERS
  else
    unit <- Vector.normalize (Vector_of_points p1 p2) ;;
    Ret (mk p1 (Vector.rotate90CCW unit)).

(** Coefficients [A, B, C] of [A*x + B*y = C]. *)
Definition standard (l : t) : float * float * float :=
  (Vector.x (norm l), Vector.y (norm l),
   Vector.dot (norm l) (Vector.mk (Point.x (pt l)) (Point.y (pt l)))).

Definition contains (l : t) (p : Point.t) : bool :=
  if Point.equalTo (pt l) p then true
  else EQ_0 (Vector.dot (norm l) (Vector_of_points (pt l) p)).
End Line.

(** Modelled from the spec: [Point.leftTo(line)], the side test of the absent
    [classes/point.js]: the offset from the line's anchor has a positive dot
    product with the normal, beyond tolerance. *)
Definition Point_leftTo (p : Point.t) (line : Line.t) : bool :=
  let vec := Vector_of_points (Line.pt line) p in
  GT (Vector.dot vec (Line.norm line)) 0%float.

(** Modelled from the spec: [Point.on(line)], the membership test. *)
Definition Point_on (p : Point.t) (line : Line.t) : bool := Line.contains line p.

(** Modelled from the spec: [classes/segment.js] is not among the sources.
    A segment exposes [start], [end], [length], [box] and its unit tangents
    at both ends, each pointing into the segment. *)
Module Segment.
Record t : Type := mk { ps : Point.t; pe : Point.t }.

Definition new (p q : Point.t) : t := mk (Point.clone p) (Point.clone q).
Definition start (s : t) : Point.t := ps s.
Definition end_ (s : t) : Point.t := pe s.

Definition length (s : t) : float :=
  let dx := (Point.x (pe s) - Point.x (ps s))%float in
  let dy := (Point.y (pe s) - Point.y (ps s))%float in
  Math.sqrt (dx * dx + dy * dy)%float.

Definition box (s : t) : Box.t :=
  Box.mk (Math.min (Point.x (ps s)) (Point.x (pe s)))
         (Math.min (Point.y (ps s)) (Point.y (pe s)))
         (Math.max (Point.x (ps s)) (Point.x (pe s)))
         (Math.max (Point.y (ps s)) (Point.y (pe s))).

Definition isZeroLength (s : t) : bool := Point.equalTo (ps s) (pe s).

Definition tangentInStart (s : t) : outcome Vector.t :=
  Vector.normalize (Vector_of_points (start s) (end_ s)).
Definition tangentInEnd (s : t) : outcome Vector.t :=
  Vector.normalize (Vector_of_points (end_ s) (start s)).
End Segment.

(** Modelled from the spec: [algorithms/intersection.js] is not among the
    sources.  Line with line by Cramer's rule; line with segment yields the
    end points that lie on the line, else the crossing point when the ends
    are on opposite sides: zero, one or two points. *)
Definition intersectLine2Line (line1 line2 : Line.t) : list Point.t :=
  let '(A1, B1, C1) := Line.standard line1 in
  let '(A2, B2, C2) := Line.standard line2 in
  let det := (A1 * B2 - B1 * A2)%float in
  let detX := (C1 * B2 - B1 * C2)%float in
  let detY := (A1 * C2 - C1 * A2)%float in
  if negb (EQ_0 det) then [Point.mk (detX / det) (detY / det)] else [].

Definition intersectSegment2Line (seg : Segment.t) (line : Line.t)
  : outcome (list Point.t) :=
  let ip := if Point_on (Segment.ps seg) line then [Segment.ps seg] else [] in
  let ip := if Point_on (Segment.pe seg) line && negb (Segment.isZeroLength seg)
            then ip ++ [Segment.pe seg] else ip in
  if 0 <? List.length ip then Ret ip
  else if Segment.isZeroLength seg then Ret ip
  else if (Point_leftTo (Segment.ps seg) line && Point_leftTo (Segment.pe seg) line)
          || (negb (Point_leftTo (Segment.ps seg) line)
              && negb (Point_leftTo (Segment.pe seg) line))
  then Ret ip
  else
    line1 <- Line.through (Segment.ps seg) (Segment.pe seg) ;;
    Ret (intersectLine2Line line1 line).

(** ** What the sources leave to their environment *)

(** Arcs need trigonometry, which the engine only approximates, so an arc is
    known here through the accessors the two source files call; [Math.atan2]
    is the engine's off the exactly specified cases. *)
Class Env : Type := {
  Arc : Type;
  atan2_approx : float -> float -> float;
  Arc_start : Arc -> Point.t;
  Arc_end : Arc -> Point.t;
  Arc_box : Arc -> Box.t;
  Arc_length : Arc -> float;
  Arc_tangentInStart : Arc -> outcome Vector.t;
  Arc_tangentInEnd : Arc -> outcome Vector.t;
  intersectLine2Arc : Line.t -> Arc -> outcome (list Point.t)
}.

(** The JavaScript values that reach the two source files: constructor
    arguments and the [shape] of an edge are untyped, and the code tells
    them apart with [instanceof]. *)
Inductive Value `{Env} : Type :=
| VUndefined
| VNumber (n : float)
| VPoint (p : Point.t)
| VVector (v : Vector.t)
| VSegment (s : Segment.t)
| VArc (a : Arc)
| VObject (class_name : string).

(** ** The ray primitive ([classes/ray.js]) *)

Module Ray.
Record t : Type := mk { pt : Point.t; norm : Vector.t }.

(** What [split] puts in its array. *)
Inductive Part : Type :=
| PSegment (s : Segment.t)
| PRay (r : t).

Section WithEnv.
Context `{Env}.

(** [new Ray(...args)]. *)
Definition constructor (args : list Value) : outcome t :=
  let this := mk (Point.mk 0 0) (Vector.mk 0 1) in
  if List.length args =? 0 then Ret this
  else
    let this :=
      match nth_error args 0 with
      | Some (VPoint p) =>
          if 1 <=? List.length args then mk (Point.clone p) (norm this)
          else this
      | _ => this
      end in
    if List.length args =? 1 then Ret this
    else
      match nth_error args 1 with
      | Some (VVector v) =>
          if List.length args =? 2 then Ret (mk (pt this) (Vector.clone v))
          else Throw ILLEGAL_PARAMETERS
      | _ => Throw ILLEGAL_PARAMETERS
      end.

Definition clone (r : t) : outcome t :=
  constructor [VPoint (pt r); VVector (norm r)].

Definition slope (r : t) : float :=
  let vec := Vector.mk (Vector.y (norm r)) (- Vector.x (norm r))%float in
  Vector.slope atan2_approx vec.

Definition box (r : t) : Box.t :=
  let slope := slope r in
  Box.mk
    (if gt slope (Math.PI / 2)%float && lt slope (3 * Math.PI / 2)%float
     then Number.NEGATIVE_INFINITY else Point.x (pt r))
    (if ge slope 0%float && le slope Math.PI
     then Point.y (pt r) else Number.NEGATIVE_INFINITY)
    (if ge slope (Math.PI / 2)%float && le slope (3 * Math.PI / 2)%float
     then Point.x (pt r) else Number.POSITIVE_INFINITY)
    (if ge slope Math.PI && le slope (2 * Math.PI)%float || eq slope 0%float
     then Point.y (pt r) else Number.POSITIVE_INFINITY).

Definition start (r : t) : Point.t := pt r.
Definition end_ (r : t) : option Point.t := None.
Definition length (r : t) : float := Number.POSITIVE_INFINITY.

Definition contains (r : t) (p : Point.t) : bool :=
  if Point.equalTo (pt r) p then true
  else
    let vec := Vector_of_points (pt r) p in
    EQ_0 (Vector.dot (norm r) vec) && GE (Vector.cross vec (norm r)) 0%float.

Definition split (r : t) (p : Point.t) : outcome (list Part) :=
  if negb (contains r p) then Ret []
  else if Point.equalTo (pt r) p then Ret [PRay r]
  else
    let s := Segment.new (pt r) p in
    r' <- constructor [VPoint p; VVector (norm r)] ;;
    Ret [PSegment s; PRay r'].

Definition intersectRay2Segment (ray : t) (segment : Segment.t)
  : outcome (list Point.t) :=
  if Box.not_intersect (box ray) (Segment.box segment) then Ret []
  else
    let line := Line.new (start ray) (norm ray) in
    ip_tmp <- intersectSegment2Line segment line ;;
    let ip := filter (contains ray) ip_tmp in
    if (List.length ip_tmp =? 2) && (List.length ip =? 1)
       && Point_on (start ray) line
    then Ret (ip ++ [start ray])
    else Ret ip.

Definition intersectRay2Arc (ray : t) (arc : Arc) : outcome (list Point.t) :=
  if Box.not_intersect (box ray) (Arc_box arc) then Ret []
  else
    let line := Line.new (start ray) (norm ray) in
    ip_tmp <- intersectLine2Arc line arc ;;
    Ret (filter (contains ray) ip_tmp).

(** [intersect(shape)]: the function falls off its end, returning
    [undefined] ([None]), when [shape] is neither a segment nor an arc. *)
Definition intersect (ray : t) (shape : Value)
  : outcome (option (list Point.t)) :=
  match shape with
  | VSegment s => ip <- intersectRay2Segment ray s ;; Ret (Some ip)
  | VArc a => ip <- intersectRay2Arc ray a ;; Ret (Some ip)
  | _ => Ret None
  end.
End WithEnv.
End Ray.

(** ** Polygons *)

(** Modelled from the spec: the polygon, its edges and the spatial index are
    not among the sources.  Edges live in an arena and [prev]/[next] are
    indices into it, so that two references are the same edge exactly when
    the indices are equal; [search] is the linear scan the spec allows for
    the range query, and the polygon's box merges the boxes of its edges. *)
Section Polygons.
Context `{Env}.

Record Edge : Type := { shape : Value; prev : nat; next : nat }.
Record Polygon : Type := { edges : list Edge }.

Definition Value_start (v : Value) : option Point.t :=
  match v with
  | VSegment s => Some (Segment.start s)
  | VArc a => Some (Arc_start a)
  | _ => None
  end.

Definition Value_end (v : Value) : option Point.t :=
  match v with
  | VSegment s => Some (Segment.end_ s)
  | VArc a => Some (Arc_end a)
  | _ => None
  end.

Definition Value_box (v : Value) : option Box.t :=
  match v with
  | VPoint p => Some (Point.box p)
  | VSegment s => Some (Segment.box s)
  | VArc a => Some (Arc_box a)
  | _ => None
  end.

(** [shape.length]; a value without the property yields [undefined], which
    the tolerance predicates see as NaN. *)
Definition Value_length (v : Value) : float :=
  match v with
  | VSegment s => Segment.length s
  | VArc a => Arc_length a
  | _ => nan
  end.

Definition Value_tangentInStart (v : Value) : outcome Vector.t :=
  match v with
  | VSegment s => Segment.tangentInStart s
  | VArc a => Arc_tangentInStart a
  | _ => Throw TypeError
  end.

Definition Value_tangentInEnd (v : Value) : outcome Vector.t :=
  match v with
  | VSegment s => Segment.tangentInEnd s
  | VArc a => Arc_tangentInEnd a
  | _ => Throw TypeError
  end.

Definition Edge_length (e : Edge) : float := Value_length (shape e).

(** Dereferencing an edge reference. *)
Definition edge_at (polygon : Polygon) (i : nat) : outcome Edge :=
  defined (nth_error (edges polygon) i).

Definition Polygon_box (polygon : Polygon) : Box.t :=
  fold_left
    (fun acc e =>
       match Value_box (shape e) with
       | Some b => Box.merge acc b
       | None => acc
       end)
    (edges polygon) Box.empty.

(** [polygon.edges.search(box)]: the references of the edges whose box
    meets the query box. *)
Definition search (polygon : Polygon) (query : Box.t) : list nat :=
  filter
    (fun i =>
       match nth_error (edges polygon) i with
       | Some e =>
           match Value_box (shape e) with
           | Some b => Box.intersect b query
           | None => false
           end
       | None => false
       end)
    (seq 0 (List.length (edges polygon))).
End Polygons.

(** ** Ray shooting ([algorithms/ray_shooting.js]) *)

Inductive Relation : Type := INSIDE | OUTSIDE | BOUNDARY.

Module RayShoot.
(** An element of [intersections]: the point and a reference to its edge. *)
Record intersection : Type := mk { pt : Point.t; edge : nat }.

(** The comparator handed to [sort]. *)
Definition compare_x (i1 i2 : intersection) : Z :=
  if LT (Point.x (pt i1)) (Point.x (pt i2)) then (-1)%Z
  else if GT (Point.x (pt i1)) (Point.x (pt i2)) then 1%Z
  else 0%Z.

(** [Array.prototype.sort] is stable; it is modelled by the stable
    insertion sort, which agrees with every stable sort whenever the
    comparator is a consistent ordering. *)
Fixpoint insert (cmp : intersection -> intersection -> Z)
         (a : intersection) (l : list intersection) : list intersection :=
  match l with
  | [] => [a]
  | b :: l' => if (cmp a b <? 0)%Z then a :: b :: l' else b :: insert cmp a l'
  end.

Definition sort (cmp : intersection -> intersection -> Z)
           (l : list intersection) : list intersection :=
  fold_left (fun acc a => insert cmp a acc) l [].

Section WithEnv.
Context `{Env}.

(** The inner [for .. of] of step 3: [None] is the early
    [return BOUNDARY]. *)
Fixpoint push_points (point : Point.t) (e : nat) (ips : list Point.t)
         (intersections : list intersection) : option (list intersection) :=
  match ips with
  | [] => Some intersections
  | ip :: rest =>
      if Point.equalTo ip point then None
      else push_points point e rest (intersections ++ [mk ip e])
  end.

(** The outer loop of step 3.  Iterating [undefined] throws. *)
Fixpoint intersect_edges (polygon : Polygon) (ray : Ray.t) (point : Point.t)
         (resp_edges : list nat) (intersections : list intersection)
  : outcome (option (list intersection)) :=
  match resp_edges with
  | [] => Ret (Some intersections)
  | e :: rest =>
      ed <- edge_at polygon e ;;
      res <- Ray.intersect ray (shape ed) ;;
      ips <- defined res ;;
      match push_points point e ips intersections with
      | None => Ret None
      | Some intersections' =>
          intersect_edges polygon ray point rest intersections'
      end
  end.

(** [while (EQ_0(prev_edge.length)) prev_edge = prev_edge.prev]: [fuel]
    bounds the number of times the body runs. *)
Fixpoint walk_prev (fuel : nat) (polygon : Polygon) (prev_edge : nat)
  : outcome nat :=
  ed <- edge_at polygon prev_edge ;;
  if EQ_0 (Edge_length ed) then
    match fuel with
    | 0 => OutOfFuel
    | S fuel' => walk_prev fuel' polygon (prev ed)
    end
  else Ret prev_edge.

Fixpoint walk_next (fuel : nat) (polygon : Polygon) (next_edge : nat)
  : outcome nat :=
  ed <- edge_at polygon next_edge ;;
  if EQ_0 (Edge_length ed) then
    match fuel with
    | 0 => OutOfFuel
    | S fuel' => walk_next fuel' polygon (next ed)
    end
  else Ret next_edge.

(** The test that guards both [continue] statements of step 5. *)
Definition already_counted (intersections : list intersection) (i : nat)
           (this : intersection) (neighbour : nat) : bool :=
  (0 <? i) &&
  match nth_error intersections (i - 1) with
  | Some before =>
      Point.equalTo (pt this) (pt before) && (neighbour =? edge before)
  | None => false
  end.

(** One turn of the loop of step 5: the counter after iteration [i]. *)
Definition count_at (fuel : nat) (polygon : Polygon) (line : Line.t)
           (intersections : list intersection) (i counter : nat)
  : outcome nat :=
  this <- defined (nth_error intersections i) ;;
  ed <- edge_at polygon (edge this) ;;
  shape_start <- defined (Value_start (shape ed)) ;;
  if Point.equalTo (pt this) shape_start then
    if already_counted intersections i this (prev ed) then Ret counter
    else
      prev_edge <- walk_prev fuel polygon (prev ed) ;;
      prev_ed <- edge_at polygon prev_edge ;;
      prev_tangent <- Value_tangentInEnd (shape prev_ed) ;;
      let prev_point := Point.translate (pt this) prev_tangent in
      cur_tangent <- Value_tangentInStart (shape ed) ;;
      let cur_point := Point.translate (pt this) cur_tangent in
      let prev_on_the_left := Point_leftTo prev_point line in
      let cur_on_the_left := Point_leftTo cur_point line in
      if (prev_on_the_left && negb cur_on_the_left)
         || (negb prev_on_the_left && cur_on_the_left)
      then Ret (counter + 1) else Ret counter
  else
    shape_end <- defined (Value_end (shape ed)) ;;
    if Point.equalTo (pt this) shape_end then
      if already_counted intersections i this (next ed) then Ret counter
      else
        next_edge <- walk_next fuel polygon (next ed) ;;
        next_ed <- edge_at polygon next_edge ;;
        next_tangent <- Value_tangentInStart (shape next_ed) ;;
        let next_point := Point.translate (pt this) next_tangent in
        cur_tangent <- Value_tangentInEnd (shape ed) ;;
        let cur_point := Point.translate (pt this) cur_tangent in
        let next_on_the_left := Point_leftTo next_point line in
        let cur_on_the_left := Point_leftTo cur_point line in
        if (next_on_the_left && negb cur_on_the_left)
           || (negb next_on_the_left && cur_on_the_left)
        then Ret (counter + 1) else Ret counter
    else
      match shape ed with
      | VSegment _ => Ret (counter + 1)
      | other =>
          box <- defined (Value_box other) ;;
          if negb (EQ (Point.y (pt this)) (Box.ymin box)
                   || EQ (Point.y (pt this)) (Box.ymax box))
          then Ret (counter + 1) else Ret counter
      end.

(** The loop of step 5, with [todo] iterations left to run from [i]. *)
Fixpoint count_from (fuel : nat) (polygon : Polygon) (line : Line.t)
         (intersections : list intersection) (todo i counter : nat)
  : outcome nat :=
  match todo with
  | 0 => Ret counter
  | S todo' =>
      counter' <- count_at fuel polygon line intersections i counter ;;
      count_from fuel polygon line intersections todo' (S i) counter'
  end.

Definition ray_shoot (fuel : nat) (polygon : Polygon) (point : Point.t)
  : outcome Relation :=
  if Box.not_intersect (Polygon_box polygon) (Point.box point) then Ret OUTSIDE
  else
    ray <- Ray.constructor [VPoint point] ;;
    let line := Line.new (Ray.pt ray) (Ray.norm ray) in
    let resp_edges := search polygon (Ray.box ray) in
    if List.length resp_edges =? 0 then Ret OUTSIDE
    else
      found <- intersect_edges polygon ray point resp_edges [] ;;
      match found with
      | None => Ret BOUNDARY
      | Some intersections =>
          let intersections := sort compare_x intersections in
          counter <- count_from fuel polygon line intersections
                                (List.length intersections) 0 0 ;;
          Ret (if counter mod 2 =? 1 then INSIDE else OUTSIDE)
      end.
End WithEnv.
End RayShoot.

(** ** What the spec says of the ray's box, in its own words *)

Definition strictly_between (a s b : float) : bool := lt a s && lt s b.
Definition within (a s b : float) : bool := le a s && le s b.

(** Spec 4.1: x-min is origin.x unless slope is strictly between PI/2 and
    3PI/2 (then -infinity); x-max is origin.x when slope is in
    [PI/2, 3PI/2] (else +infinity); y-min is origin.y when slope is in
    [0, PI] (else -infinity); y-max is origin.y when slope is in [PI, 2PI]
    or slope equals 0 (else +infinity). *)
Definition box_by_slope (origin : Point.t) (slope : float) : Box.t :=
  let half_pi := (Math.PI / 2)%float in
  let three_half_pi := (3 * Math.PI / 2)%float in
  let two_pi := (2 * Math.PI)%float in
  Box.mk
    (if strictly_between half_pi slope three_half_pi
     then neg_infinity else Point.x origin)
    (if within 0%float slope Math.PI then Point.y origin else neg_infinity)
    (if within half_pi slope three_half_pi then Point.x origin else infinity)
    (if within Math.PI slope two_pi || eq slope 0%float
     then Point.y origin else infinity).

(** ** Fixtures *)

(** An environment for concrete runs: an arc is the table of what its
    accessors return, and the engine's own [atan2] answers NaN, which no run
    below consults (every ray used has the normal (0,1), where
    [Math.atan2] is exact). *)
Module Table.
Record arc : Type := {
  start : Point.t;
  end_ : Point.t;
  box : Box.t;
  length : float;
  tangentInStart : Vector.t;
  tangentInEnd : Vector.t;
  hits : list Point.t
}.

Definition env : Env := {|
  Arc := arc;
  atan2_approx := fun _ _ => nan;
  Arc_start := start;
  Arc_end := end_;
  Arc_box := box;
  Arc_length := length;
  Arc_tangentInStart := fun a => Ret (tangentInStart a);
  Arc_tangentInEnd := fun a => Ret (tangentInEnd a);
  intersectLine2Arc := fun _ a => Ret (hits a)
|}.

(** The upper half of the unit circle, from (1,0) counter-clockwise to
    (-1,0), as met by the line y = 1 at its top point. *)
Definition upper_half_circle : arc := {|
  start := Point.mk 1 0;
  end_ := Point.mk (-1) 0;
  box := Box.mk (-1) 0 1 1;
  length := Math.PI;
  tangentInStart := Vector.mk 0 1;
  tangentInEnd := Vector.mk 0 1;
  hits := [Point.mk 0 1]
|}.
End Table.

(** The line [new Line()] builds. *)
Definition default_line : Line.t := Line.mk (Point.mk 0 0) (Vector.mk 0 1).

(** The ray [new Ray()] builds. *)
Definition default_ray : Ray.t := Ray.mk (Point.mk 0 0) (Vector.mk 0 1).

(** A segment hovering half a tolerance above the x axis. *)
Definition grazing_segment : Segment.t :=
  Segment.mk (Point.mk 1 (DP_TOL / 2)) (Point.mk 2 (DP_TOL / 2)).

(** [shape instanceof Segment || shape instanceof Arc]. *)
Definition is_segment_or_arc `{Env} (v : Value) : bool :=
  match v with
  | VSegment _ | VArc _ => true
  | _ => false
  end.

Section Fixtures.
Context `{Env}.

Definition segment (x1 y1 x2 y2 : float) : Value :=
  VSegment (Segment.mk (Point.mk x1 y1) (Point.mk x2 y2)).

(** The unit square (0,0),(1,0),(1,1),(0,1) as one ring of four edges. *)
Definition unit_square : Polygon :=
  {| edges := [ {| shape := segment 0 0 1 0; prev := 3; next := 1 |};
                {| shape := segment 1 0 1 1; prev := 0; next := 2 |};
                {| shape := segment 1 1 0 1; prev := 1; next := 3 |};
                {| shape := segment 0 1 0 0; prev := 2; next := 0 |} ] |}.

(** The diamond (0,-1),(1,0),(0,1),(-1,0) with an extra edge of zero
    length at its right corner. *)
Definition diamond : Polygon :=
  {| edges := [ {| shape := segment 0 (-1) 1 0; prev := 4; next := 1 |};
                {| shape := segment 1 0 1 0; prev := 0; next := 2 |};
                {| shape := segment 1 0 0 1; prev := 1; next := 3 |};
                {| shape := segment 0 1 (-1) 0; prev := 2; next := 4 |};
                {| shape := segment (-1) 0 0 (-1); prev := 3; next := 0 |} ] |}.

(** The unit square with a second ring made of two edges of zero length,
    both at (0.75, 0.5). *)
Definition square_with_speck : Polygon :=
  {| edges := edges unit_square ++
              [ {| shape := segment 0.75 0.5 0.75 0.5; prev := 5; next := 5 |};
                {| shape := segment 0.75 0.5 0.75 0.5; prev := 4; next := 4 |} ] |}.

(** The unit square with a stray edge whose shape is a point. *)
Definition square_with_point : Polygon :=
  {| edges := edges unit_square ++
              [ {| shape := VPoint (Point.mk 0.75 0.5); prev := 4; next := 4 |} ] |}.
End Fixtures.


(** The line of a horizontal ray shot from the origin. *)
Definition x_axis : Line.t := Line.new (Point.mk 0 0) (Vector.mk 0 1).


(** ** The shape of the two walks *)

(** Both [while] loops of step 5 follow one link ([prev] or [next]) for as
    long as the edge they stand on has zero length. *)
Section Walks.
Context `{Env}.
Variable link : Edge -> nat.
Variable polygon : Polygon.

Fixpoint walk (fuel : nat) (e : nat) : outcome nat :=
  ed <- edge_at polygon e ;;
  if EQ_0 (Edge_length ed) then
    match fuel with
    | 0 => OutOfFuel
    | S fuel' => walk fuel' (link ed)
    end
  else Ret e.

(** Where the loop stands after its body has run [k] times, if it runs
    that long. *)
Fixpoint chain (k : nat) (e : nat) : option nat :=
  match k with
  | 0 => Some e
  | S k' =>
      match nth_error (edges polygon) e with
      | Some ed => if EQ_0 (Edge_length ed) then chain k' (link ed) else None
      | None => None
      end
  end.
End Walks.

(** Every run of zero-length edges that a walk of [ray_shoot] can start on
    comes to an end, in both directions. *)
Definition nondegenerate `{Env} (polygon : Polygon) : Prop :=
  forall i ed,
    nth_error (edges polygon) i = Some ed ->
    (exists k, chain prev polygon k (prev ed) = None) /\
    (exists k, chain next polygon k (next ed) = None).

(** The arc accessors have no loop: they return or throw. *)
Definition arcs_return (E : Env) : Prop :=
  forall (a : Arc) (l : Line.t),
    Arc_tangentInStart a <> OutOfFuel /\
    Arc_tangentInEnd a <> OutOfFuel /\
    intersectLine2Arc l a <> OutOfFuel.

(** ** More of the two source files *)

(** [export const ray = (...args) => new Ray(...args)]. *)
Definition ray `{Env} (args : list Value) : outcome Ray.t := Ray.constructor args.

(** The ray [ray_shoot] shoots from [point]: [new Ray(point)]. *)
Definition shot (point : Point.t) : Ray.t := Ray.mk point (Vector.mk 0 1).

(** What the inner [for .. of] of step 3 iterates over for the edge [e]:
    [ray.intersect(edge.shape)]. *)
Definition hits `{Env} (polygon : Polygon) (ray : Ray.t) (e : nat)
  : outcome (list Point.t) :=
  ed <- edge_at polygon e ;;
  res <- Ray.intersect ray (shape ed) ;;
  defined res.

(** * Properties *)

(** ** Small facts used throughout *)

Lemma Point_clone_id (p : Point.t) : Point.clone p = p.
Proof. destruct p; reflexivity. Qed.

Lemma Vector_clone_id (v : Vector.t) : Vector.clone v = v.
Proof. destruct v; reflexivity. Qed.

Lemma bind_returns {A B : Type} (m : outcome A) (k : A -> outcome B) :
  m <> OutOfFuel -> (forall a, m = Ret a -> k a <> OutOfFuel) ->
  bind m k <> OutOfFuel.
Proof.
  destruct m as [a | e |]; simpl; intros Hm Hk.
  - apply Hk; reflexivity.
  - discriminate.
  - contradiction.
Qed.

Lemma defined_returns {A : Type} (o : option A) : defined o <> OutOfFuel.
Proof. destruct o; discriminate. Qed.

(** ** The constructor *)

Section RayConstructor.
Context `{Env}.

Lemma constructor_no_argument : Ray.constructor [] = Ret default_ray.
Proof. reflexivity. Qed.

Lemma constructor_point (p : Point.t) :
  Ray.constructor [VPoint p] = Ret (Ray.mk p (Vector.mk 0 1)).
Proof. cbn. now rewrite Point_clone_id. Qed.

Lemma constructor_point_vector (p : Point.t) (v : Vector.t) :
  Ray.constructor [VPoint p; VVector v] = Ret (Ray.mk p v).
Proof. cbn. now rewrite Point_clone_id, Vector_clone_id. Qed.

(** The constructor throws exactly when it is given three or more
    arguments, or two of which the second is not a vector. *)
Lemma constructor_throws_iff (args : list Value) :
  Ray.constructor args = Throw ILLEGAL_PARAMETERS <->
  (3 <= List.length args \/
   (List.length args = 2 /\ forall v, nth_error args 1 <> Some (VVector v))).
Proof.
  destruct args as [| a [| b [| c rest]]].
  - cbn. split; [discriminate | intros [Hl | [Hl _]]; [lia | discriminate]].
  - cbn. split; [discriminate | intros [Hl | [Hl _]]; [lia | discriminate]].
  - cbn. split.
    + intros Hc. right. split; [reflexivity |].
      intros v Hv. injection Hv as ->. discriminate.
    + intros [Hl | [_ Hb]]; [lia |].
      destruct b; try reflexivity. exfalso. apply (Hb v). reflexivity.
  - split.
    + intros _. left. cbn. lia.
    + intros _. unfold Ray.constructor.
      cbn [List.length Nat.eqb nth_error].
      destruct b; reflexivity.
Qed.

(** C5 (the code departs from it): with one argument the constructor
    returns before it has looked at the argument's type, so a single
    number, and a number followed by a vector, are accepted instead of
    failing with the illegal-parameters error; a point followed by a
    number does fail. *)
Theorem constructor_accepts_non_point :
  Ray.constructor [VNumber 5] = Ret default_ray /\
  Ray.constructor [VNumber 5; VVector (Vector.mk 1 0)]
    = Ret (Ray.mk (Point.mk 0 0) (Vector.mk 1 0)) /\
  Ray.constructor [VPoint (Point.mk 1 1); VNumber 5] = Throw ILLEGAL_PARAMETERS.
Proof. repeat split. Qed.
End RayConstructor.

(** ** Box, containment and splitting *)

Section RayGeometry.
Context `{Env}.

(** C9: [Ray.box] is the half-infinite box the spec describes, bound by
    bound: x-min is origin.x unless the slope is strictly between PI/2 and
    3PI/2, x-max is origin.x when the slope is in [PI/2, 3PI/2], y-min is
    origin.y when it is in [0, PI], y-max is origin.y when it is in
    [PI, 2PI] or equals 0, and the other side is infinite. *)
Theorem box_follows_slope (r : Ray.t) :
  Ray.box r = box_by_slope (Ray.pt r) (Ray.slope r).
Proof.
  unfold Ray.box, box_by_slope, strictly_between, within, gt, ge, le, lt,
    Number.NEGATIVE_INFINITY, Number.POSITIVE_INFINITY.
  reflexivity.
Qed.

(** The slope of a horizontal ray with the default normal is [-0], and its
    box is the half-line's: flat in y, open to the right. *)
Lemma box_of_horizontal_ray (p : Point.t) :
  Ray.box (Ray.mk p (Vector.mk 0 1))
  = Box.mk (Point.x p) (Point.y p) infinity (Point.y p).
Proof. reflexivity. Qed.

(** The ray's line contains whatever the ray contains. *)
Lemma contains_on_line (r : Ray.t) (p : Point.t) :
  Ray.contains r p = true ->
  Point_on p (Line.new (Ray.pt r) (Ray.norm r)) = true.
Proof.
  unfold Ray.contains, Point_on, Line.contains, Line.new. cbn [Line.pt Line.norm].
  rewrite Point_clone_id, Vector_clone_id.
  destruct (Point.equalTo (Ray.pt r) p); [reflexivity |].
  intros Hc. apply andb_true_iff in Hc. tauto.
Qed.
End RayGeometry.

(** Tolerance equality subtracts, and infinity minus infinity is NaN: a ray
    whose origin has an infinite coordinate does not contain its own
    origin. *)
Lemma contains_origin_at_infinity :
  Ray.contains (Ray.mk (Point.mk infinity 0) (Vector.mk 0 1))
               (Point.mk infinity 0) = false.
Proof. vm_compute. reflexivity. Qed.

Section RaySplit.
Context `{Env}.

(** C8: [split] returns nothing when the ray does not contain [p], the ray
    itself when [p] equals the origin, and otherwise the segment from the
    origin to [p] followed by a ray from [p] with the same normal. *)
Theorem split_cases (r : Ray.t) (p : Point.t) :
  (Ray.contains r p = false -> Ray.split r p = Ret []) /\
  (Point.equalTo (Ray.pt r) p = true -> Ray.split r p = Ret [Ray.PRay r]) /\
  (Ray.contains r p = true -> Point.equalTo (Ray.pt r) p = false ->
   Ray.split r p
   = Ret [Ray.PSegment (Segment.mk (Ray.pt r) p);
          Ray.PRay (Ray.mk p (Ray.norm r))]).
Proof.
  unfold Ray.split. repeat split.
  - intros ->. reflexivity.
  - intros Heq.
    assert (Hc : Ray.contains r p = true)
      by (unfold Ray.contains; now rewrite Heq).
    now rewrite Hc, Heq.
  - intros -> ->. cbn [negb].
    rewrite constructor_point_vector. cbn [bind].
    unfold Segment.new. now rewrite !Point_clone_id.
Qed.
End RaySplit.

Lemma split_cases_witness :
  Ray.split (H := Table.env) default_ray (Point.mk (-3) 0) = Ret [] /\
  Ray.split (H := Table.env) default_ray (Point.mk 0 0) = Ret [Ray.PRay default_ray] /\
  Ray.split (H := Table.env) default_ray (Point.mk 3 0)
  = Ret [Ray.PSegment (Segment.mk (Point.mk 0 0) (Point.mk 3 0));
         Ray.PRay (Ray.mk (Point.mk 3 0) (Vector.mk 0 1))].
Proof.
  split; [| split].
  - apply (proj1 (split_cases (H := Table.env) default_ray (Point.mk (-3) 0))).
    vm_compute. reflexivity.
  - apply (proj1 (proj2 (split_cases (H := Table.env) default_ray (Point.mk 0 0)))).
    vm_compute. reflexivity.
  - apply (proj2 (proj2 (split_cases (H := Table.env) default_ray (Point.mk 3 0))));
      vm_compute; reflexivity.
Defined.

(** ** Intersection with a shape *)

Section RayIntersect.
Context `{Env}.

(** C4 (amended): when the boxes of the ray and of the shape are disjoint
    [intersect] returns no point at all.  Otherwise, for a segment it
    returns the points of the line-segment intersection that the ray
    contains, followed by the ray's origin exactly when the line met the
    segment in 2 points, 1 was kept and the origin is on the line; for an
    arc it returns the kept points and never adds the origin. *)
Theorem intersect_filters (ray : Ray.t) :
  (forall s,
      Box.not_intersect (Ray.box ray) (Segment.box s) = true ->
      Ray.intersect ray (VSegment s) = Ret (Some [])) /\
  (forall s ip_tmp,
      Box.not_intersect (Ray.box ray) (Segment.box s) = false ->
      intersectSegment2Line s (Line.new (Ray.pt ray) (Ray.norm ray)) = Ret ip_tmp ->
      Ray.intersect ray (VSegment s)
      = Ret (Some
               (filter (Ray.contains ray) ip_tmp ++
                if (List.length ip_tmp =? 2)
                   && (List.length (filter (Ray.contains ray) ip_tmp) =? 1)
                   && Point_on (Ray.pt ray) (Line.new (Ray.pt ray) (Ray.norm ray))
                then [Ray.pt ray] else []))) /\
  (forall a,
      Box.not_intersect (Ray.box ray) (Arc_box a) = true ->
      Ray.intersect ray (VArc a) = Ret (Some [])) /\
  (forall a ip_tmp,
      Box.not_intersect (Ray.box ray) (Arc_box a) = false ->
      intersectLine2Arc (Line.new (Ray.pt ray) (Ray.norm ray)) a = Ret ip_tmp ->
      Ray.intersect ray (VArc a) = Ret (Some (filter (Ray.contains ray) ip_tmp))).
Proof.
  split; [| split; [| split]].
  - intros s Hbox. cbn [Ray.intersect]. unfold Ray.intersectRay2Segment.
    now rewrite Hbox.
  - intros s ip_tmp Hbox Hline. cbn [Ray.intersect].
    unfold Ray.intersectRay2Segment, Ray.start. rewrite Hbox, Hline.
    cbn [bind].
    destruct ((List.length ip_tmp =? 2)
              && (List.length (filter (Ray.contains ray) ip_tmp) =? 1)
              && Point_on (Ray.pt ray) (Line.new (Ray.pt ray) (Ray.norm ray))).
    + reflexivity.
    + cbn [bind]. now rewrite app_nil_r.
  - intros a Hbox. cbn [Ray.intersect]. unfold Ray.intersectRay2Arc.
    now rewrite Hbox.
  - intros a ip_tmp Hbox Hline. cbn [Ray.intersect].
    unfold Ray.intersectRay2Arc, Ray.start. now rewrite Hbox, Hline.
Qed.

(** C10: for a shape that is neither a segment nor an arc [intersect]
    returns [undefined], and the loop of [ray_shoot] that iterates over
    the result for an edge of such a shape throws. *)
Theorem intersect_other_shape (ray : Ray.t) (v : Value) :
  is_segment_or_arc v = false ->
  Ray.intersect ray v = Ret None /\
  (forall polygon point e ed rest intersections,
      edge_at polygon e = Ret ed -> shape ed = v ->
      RayShoot.intersect_edges polygon ray point (e :: rest) intersections
      = Throw TypeError).
Proof.
  intros Hv.
  assert (Hret : Ray.intersect ray v = Ret None)
    by (destruct v; try reflexivity; discriminate).
  split; [exact Hret |].
  intros polygon point e ed rest intersections Hed Hshape.
  cbn [RayShoot.intersect_edges]. rewrite Hed. cbn [bind].
  rewrite Hshape, Hret. reflexivity.
Qed.
End RayIntersect.

(** C4 as stated fails: the fast reject compares boxes exactly while the
    line and the ray test membership under tolerance, so the horizontal ray
    from (0,0) loses both points of a segment lying half a tolerance above
    the axis, points that the line meets and the ray contains. *)
Lemma intersect_fast_reject_drops_points :
  Ray.intersect (H := Table.env) default_ray (VSegment grazing_segment)
  = Ret (Some []) /\
  (ip_tmp <- intersectSegment2Line grazing_segment
                                   (Line.new (Ray.pt default_ray) (Ray.norm default_ray)) ;;
   Ret (filter (Ray.contains default_ray) ip_tmp))
  = Ret [Segment.ps grazing_segment; Segment.pe grazing_segment].
Proof. split; vm_compute; reflexivity. Qed.

Lemma intersect_filters_witness :
  Ray.intersect (H := Table.env) default_ray (VSegment grazing_segment)
  = Ret (Some []) /\
  Ray.intersect (H := Table.env) (Ray.mk (Point.mk 0.5 0) (Vector.mk 0 1))
                (VSegment (Segment.mk (Point.mk 0 0) (Point.mk 1 0)))
  = Ret (Some [Point.mk 1 0; Point.mk 0.5 0]) /\
  Ray.intersect (H := Table.env) (Ray.mk (Point.mk 0 2) (Vector.mk 0 1))
                (VArc (Table.upper_half_circle : @Arc Table.env))
  = Ret (Some []) /\
  Ray.intersect (H := Table.env) (Ray.mk (Point.mk (-0.5) 1) (Vector.mk 0 1))
                (VArc (Table.upper_half_circle : @Arc Table.env))
  = Ret (Some [Point.mk 0 1]).
Proof.
  split; [| split; [| split]].
  - apply (proj1 (intersect_filters (H := Table.env) default_ray)).
    vm_compute. reflexivity.
  - apply (proj1 (proj2 (intersect_filters (H := Table.env)
                           (Ray.mk (Point.mk 0.5 0) (Vector.mk 0 1))))
             (Segment.mk (Point.mk 0 0) (Point.mk 1 0))
             [Point.mk 0 0; Point.mk 1 0]);
      vm_compute; reflexivity.
  - apply (proj1 (proj2 (proj2 (intersect_filters (H := Table.env)
                                  (Ray.mk (Point.mk 0 2) (Vector.mk 0 1)))))).
    vm_compute. reflexivity.
  - apply (proj2 (proj2 (proj2 (intersect_filters (H := Table.env)
                                  (Ray.mk (Point.mk (-0.5) 1) (Vector.mk 0 1)))))
             (Table.upper_half_circle : @Arc Table.env) [Point.mk 0 1]);
      vm_compute; reflexivity.
Defined.

Lemma intersect_other_shape_witness :
  Ray.intersect (H := Table.env) (Ray.mk (Point.mk 0.5 0.5) (Vector.mk 0 1))
                (VPoint (Point.mk 0.75 0.5)) = Ret None /\
  RayShoot.intersect_edges (H := Table.env) square_with_point
    (Ray.mk (Point.mk 0.5 0.5) (Vector.mk 0 1)) (Point.mk 0.5 0.5) [4] []
  = Throw TypeError.
Proof.
  pose proof (intersect_other_shape (H := Table.env)
                (Ray.mk (Point.mk 0.5 0.5) (Vector.mk 0 1))
                (VPoint (Point.mk 0.75 0.5)) eq_refl) as [Hret Hloop].
  split; [exact Hret |].
  apply (Hloop square_with_point (Point.mk 0.5 0.5) 4
               {| shape := VPoint (Point.mk 0.75 0.5); prev := 4; next := 4 |});
    reflexivity.
Defined.

(** ** The walks over zero-length edges *)

Section WalkFacts.
Context `{Env}.
Variable link : Edge -> nat.
Variable polygon : Polygon.

#[local] Abbreviation size := (List.length (edges polygon)).

Lemma chain_add (a b e : nat) :
  chain link polygon (a + b) e
  = match chain link polygon a e with
    | Some s => chain link polygon b s
    | None => None
    end.
Proof.
  revert e. induction a as [| a IH]; intros e; [reflexivity |].
  cbn [Nat.add chain].
  destruct (nth_error (edges polygon) e) as [ed |]; [| reflexivity].
  destruct (EQ_0 (Edge_length ed)); [apply IH | reflexivity].
Qed.

Lemma chain_stops_for_good (k k' e : nat) :
  chain link polygon k e = None -> k <= k' -> chain link polygon k' e = None.
Proof.
  intros Hk Hle. replace k' with (k + (k' - k)) by lia.
  rewrite chain_add, Hk. reflexivity.
Qed.

Lemma chain_stands_on_edge (i e : nat) :
  chain link polygon (S i) e <> None ->
  exists s, chain link polygon i e = Some s /\ s < size.
Proof.
  replace (S i) with (i + 1) by lia. rewrite chain_add.
  destruct (chain link polygon i e) as [s |]; [| congruence].
  intros Hs. exists s. split; [reflexivity |].
  apply nth_error_Some. cbn [chain] in Hs.
  destruct (nth_error (edges polygon) s); congruence.
Qed.

(** The loop is still running after [fuel] turns exactly when the chain of
    zero-length edges is [fuel + 1] long. *)
Lemma walk_out_of_fuel (fuel e : nat) :
  walk link polygon fuel e = OutOfFuel <->
  chain link polygon (S fuel) e <> None.
Proof.
  revert e. induction fuel as [| fuel IH]; intros e.
  - cbn [walk chain]. unfold edge_at.
    destruct (nth_error (edges polygon) e) as [ed |]; cbn [defined bind].
    + destruct (EQ_0 (Edge_length ed)); split; congruence.
    + split; congruence.
  - cbn [walk]. unfold edge_at.
    change (chain link polygon (S (S fuel)) e)
      with (match nth_error (edges polygon) e with
            | Some ed => if EQ_0 (Edge_length ed)
                         then chain link polygon (S fuel) (link ed) else None
            | None => None
            end).
    destruct (nth_error (edges polygon) e) as [ed |]; cbn [defined bind].
    + destruct (EQ_0 (Edge_length ed)); [apply IH | split; congruence].
    + split; congruence.
Qed.

(** More fuel does not change a result already reached. *)
Lemma walk_stable (fuel d e : nat) :
  walk link polygon fuel e <> OutOfFuel ->
  walk link polygon (fuel + d) e = walk link polygon fuel e.
Proof.
  revert e. induction fuel as [| fuel IH]; intros e.
  - cbn [walk Nat.add]. destruct d as [| d]; [reflexivity |].
    cbn [walk]. destruct (edge_at polygon e) as [ed | err |]; cbn [bind];
      try reflexivity.
    destruct (EQ_0 (Edge_length ed)); [congruence | reflexivity].
  - cbn [walk Nat.add]. destruct (edge_at polygon e) as [ed | err |]; cbn [bind];
      try reflexivity.
    destruct (EQ_0 (Edge_length ed)); [apply IH | reflexivity].
Qed.

(** A chain that stops has a first turn at which it stops. *)
Lemma chain_first_stop (k e : nat) :
  chain link polygon k e = None ->
  exists m, chain link polygon (S m) e = None /\
            forall j, j <= m -> chain link polygon j e <> None.
Proof.
  induction k as [| k IH]; [discriminate |].
  intros Hk. destruct (chain link polygon k e) as [s |] eqn:Hprev.
  - exists k. split; [exact Hk |].
    intros j Hj Hnone.
    rewrite (chain_stops_for_good j k e Hnone Hj) in Hprev. discriminate.
  - apply IH. reflexivity.
Qed.

(** Before its first stop a chain never stands twice on the same edge. *)
Lemma chain_no_repeat (m e i j : nat) :
  chain link polygon (S m) e = None ->
  (forall t, t <= m -> chain link polygon t e <> None) ->
  i < j -> j <= m ->
  chain link polygon i e <> chain link polygon j e.
Proof.
  intros Hstop Hrun Hij Hjm Hsame.
  assert (Hi : chain link polygon i e <> None) by (apply Hrun; lia).
  destruct (chain link polygon i e) as [s |] eqn:Hsi; [| congruence].
  assert (Htail : chain link polygon (S m - j) s = None).
  { replace (S m) with (j + (S m - j)) in Hstop by lia.
    rewrite chain_add, <- Hsame in Hstop. exact Hstop. }
  apply (Hrun (i + (S m - j))); [lia |].
  rewrite chain_add, Hsi. exact Htail.
Qed.

(** A chain that stops at all stops within as many turns as the polygon
    has edges, plus the turn that finds the stop. *)
Lemma chain_stops_early (k e : nat) :
  chain link polygon k e = None -> chain link polygon (S size) e = None.
Proof.
  intros Hk. destruct (chain_first_stop k e Hk) as (m & Hstop & Hrun).
  apply chain_stops_for_good with (k := S m); [exact Hstop |].
  apply le_n_S.
  set (at_turn := fun t => match chain link polygon t e with
                           | Some s => s
                           | None => 0
                           end).
  assert (Hdistinct : NoDup (map at_turn (seq 0 m))).
  { apply NoDup_map_NoDup_ForallPairs; [| apply seq_NoDup].
    intros a b Ha Hb Hab. apply in_seq in Ha, Hb.
    assert (Hsame : chain link polygon a e = chain link polygon b e).
    { unfold at_turn in Hab.
      assert (Hra : chain link polygon a e <> None) by (apply Hrun; lia).
      assert (Hrb : chain link polygon b e <> None) by (apply Hrun; lia).
      destruct (chain link polygon a e), (chain link polygon b e); congruence. }
    destruct (Nat.lt_trichotomy a b) as [Hlt | [Heq | Hgt]]; [| exact Heq |].
    - exfalso. apply (chain_no_repeat m e a b Hstop Hrun); [lia | lia |].
      exact Hsame.
    - exfalso. apply (chain_no_repeat m e b a Hstop Hrun); [lia | lia |].
      symmetry. exact Hsame. }
  assert (Hin : incl (map at_turn (seq 0 m)) (seq 0 size)).
  { intros s Hs. apply in_map_iff in Hs. destruct Hs as (t & Ht & Hseq).
    apply in_seq in Hseq. apply in_seq.
    destruct (chain_stands_on_edge t e) as (s' & Hs' & Hbound).
    - apply Hrun. lia.
    - unfold at_turn in Ht. rewrite Hs' in Ht. lia. }
  pose proof (NoDup_incl_length Hdistinct Hin) as Hlen.
  rewrite length_map, !length_seq in Hlen. exact Hlen.
Qed.

(** A walk that ends, ends within as many turns as there are edges. *)
Lemma walk_bounded (fuel e : nat) :
  walk link polygon fuel e <> OutOfFuel ->
  walk link polygon size e = walk link polygon fuel e.
Proof.
  intros Hends.
  assert (Hstop : chain link polygon (S fuel) e = None).
  { destruct (chain link polygon (S fuel) e) eqn:Hc; [| reflexivity].
    exfalso. apply Hends. apply walk_out_of_fuel. congruence. }
  assert (Hsize : walk link polygon size e <> OutOfFuel).
  { intros Hout. apply walk_out_of_fuel in Hout. apply Hout.
    apply chain_stops_early with (k := S fuel). exact Hstop. }
  destruct (Nat.le_ge_cases fuel size) as [Hle | Hge].
  - replace size with (fuel + (size - fuel)) by lia.
    apply walk_stable. exact Hends.
  - rewrite <- (walk_stable size (fuel - size) e Hsize).
    f_equal. lia.
Qed.
End WalkFacts.

(** ** Which calls can still be running *)

Ltac returns_step :=
  match goal with
  | |- Ret _ <> OutOfFuel => discriminate
  | |- Throw _ <> OutOfFuel => discriminate
  | |- defined _ <> OutOfFuel => apply defined_returns
  | |- edge_at _ _ <> OutOfFuel => apply defined_returns
  | |- bind _ _ <> OutOfFuel => apply bind_returns; [| intros ? ?]
  | |- (if ?c then _ else _) <> OutOfFuel => destruct c
  | |- (let _ := _ in _) <> OutOfFuel => cbv zeta
  end.

Ltac returns := repeat returns_step.

Lemma normalize_returns (v : Vector.t) : Vector.normalize v <> OutOfFuel.
Proof. unfold Vector.normalize. returns. Qed.

Lemma through_returns (p q : Point.t) : Line.through p q <> OutOfFuel.
Proof. unfold Line.through. returns. apply normalize_returns. Qed.

Lemma intersectSegment2Line_returns (seg : Segment.t) (line : Line.t) :
  intersectSegment2Line seg line <> OutOfFuel.
Proof. unfold intersectSegment2Line. returns. apply through_returns. Qed.

Section Returns.
Context `{E : Env}.
Hypothesis arcs : arcs_return E.

Lemma tangentInStart_returns (v : Value) : Value_tangentInStart v <> OutOfFuel.
Proof.
  destruct v; cbn; try discriminate.
  - apply normalize_returns.
  - apply (arcs a default_line).
Qed.

Lemma tangentInEnd_returns (v : Value) : Value_tangentInEnd v <> OutOfFuel.
Proof.
  destruct v; cbn; try discriminate.
  - apply normalize_returns.
  - apply (arcs a default_line).
Qed.

Lemma intersect_returns (ray : Ray.t) (v : Value) :
  Ray.intersect ray v <> OutOfFuel.
Proof.
  destruct v; cbn [Ray.intersect]; try discriminate.
  - unfold Ray.intersectRay2Segment. returns.
    apply intersectSegment2Line_returns.
  - unfold Ray.intersectRay2Arc. returns. apply arcs.
Qed.

Lemma intersect_edges_returns (polygon : Polygon) (ray : Ray.t) (point : Point.t)
      (resp_edges : list nat) (intersections : list RayShoot.intersection) :
  RayShoot.intersect_edges polygon ray point resp_edges intersections
  <> OutOfFuel.
Proof.
  revert intersections.
  induction resp_edges as [| e rest IH]; intros intersections;
    cbn [RayShoot.intersect_edges]; returns.
  - apply intersect_returns.
  - match goal with
    | |- match ?pushed with _ => _ end <> _ => destruct pushed
    end; [apply IH | discriminate].
Qed.

Lemma walk_prev_is_walk (fuel : nat) (polygon : Polygon) (e : nat) :
  RayShoot.walk_prev fuel polygon e = walk prev polygon fuel e.
Proof.
  revert e. induction fuel as [| fuel IH]; intros e; cbn; [reflexivity |].
  destruct (edge_at polygon e); cbn; try reflexivity.
  destruct (EQ_0 (Edge_length a)); [apply IH | reflexivity].
Qed.

Lemma walk_next_is_walk (fuel : nat) (polygon : Polygon) (e : nat) :
  RayShoot.walk_next fuel polygon e = walk next polygon fuel e.
Proof.
  revert e. induction fuel as [| fuel IH]; intros e; cbn; [reflexivity |].
  destruct (edge_at polygon e); cbn; try reflexivity.
  destruct (EQ_0 (Edge_length a)); [apply IH | reflexivity].
Qed.

(** On a nondegenerate polygon both walks end within the edge count. *)
Lemma walks_end (polygon : Polygon) (i : nat) (ed : Edge) :
  nondegenerate polygon ->
  nth_error (edges polygon) i = Some ed ->
  RayShoot.walk_prev (List.length (edges polygon)) polygon (prev ed) <> OutOfFuel /\
  RayShoot.walk_next (List.length (edges polygon)) polygon (next ed) <> OutOfFuel.
Proof.
  intros Hpoly Hed. destruct (Hpoly i ed Hed) as [[kp Hp] [kn Hn]].
  rewrite walk_prev_is_walk, walk_next_is_walk. split; intros Hout.
  - apply walk_out_of_fuel in Hout. apply Hout.
    apply chain_stops_early with (k := kp). exact Hp.
  - apply walk_out_of_fuel in Hout. apply Hout.
    apply chain_stops_early with (k := kn). exact Hn.
Qed.

Lemma count_at_returns (polygon : Polygon) (line : Line.t)
      (intersections : list RayShoot.intersection) (i counter : nat) :
  nondegenerate polygon ->
  RayShoot.count_at (List.length (edges polygon)) polygon line intersections
                    i counter <> OutOfFuel.
Proof.
  intros Hpoly. unfold RayShoot.count_at. returns;
    try apply tangentInStart_returns; try apply tangentInEnd_returns;
    try (match goal with
         | |- match ?sh with _ => _ end <> _ => destruct sh
         end; returns).
  all: match goal with
       | Hed : edge_at _ ?i = Ret ?ed |- _ =>
           unfold edge_at in Hed;
           destruct (nth_error _ i) eqn:Hnth;
           [injection Hed as -> | discriminate]
       end.
  all: eapply walks_end; eassumption.
Qed.

Lemma count_from_returns (polygon : Polygon) (line : Line.t)
      (intersections : list RayShoot.intersection) (todo i counter : nat) :
  nondegenerate polygon ->
  RayShoot.count_from (List.length (edges polygon)) polygon line intersections
                      todo i counter <> OutOfFuel.
Proof.
  intros Hpoly. revert i counter.
  induction todo as [| todo IH]; intros i counter; cbn [RayShoot.count_from];
    returns.
  - apply count_at_returns. exact Hpoly.
  - apply IH.
Qed.

Lemma ray_shoot_returns (polygon : Polygon) (point : Point.t) :
  nondegenerate polygon ->
  RayShoot.ray_shoot (List.length (edges polygon)) polygon point <> OutOfFuel.
Proof.
  intros Hpoly. unfold RayShoot.ray_shoot. rewrite constructor_point.
  cbn [bind]. returns.
  - apply intersect_edges_returns.
  - match goal with
    | |- match ?found with _ => _ end <> _ => destruct found
    end; returns.
    apply count_from_returns. exact Hpoly.
Qed.
End Returns.

(** ** Ray shooting *)

(** C1: on the unit square (0,0),(1,0),(1,1),(0,1), [ray_shoot] answers
    INSIDE for (0.5, 0.5), OUTSIDE for (2, 0.5) and BOUNDARY for (1, 0.5),
    whatever the environment and the fuel. *)
Theorem ray_shoot_unit_square `{Env} (fuel : nat) :
  RayShoot.ray_shoot fuel unit_square (Point.mk 0.5 0.5) = Ret INSIDE /\
  RayShoot.ray_shoot fuel unit_square (Point.mk 2 0.5) = Ret OUTSIDE /\
  RayShoot.ray_shoot fuel unit_square (Point.mk 1 0.5) = Ret BOUNDARY.
Proof. split; [| split]; vm_compute; reflexivity. Qed.

(** A corner of the square is on the boundary too. *)
Lemma ray_shoot_unit_square_corner `{Env} (fuel : nat) :
  RayShoot.ray_shoot fuel unit_square (Point.mk 0 0) = Ret BOUNDARY.
Proof. vm_compute. reflexivity. Qed.

Section Counting.
Context `{Env}.
Import RayShoot.


(** An intersection already counted through the neighbouring edge leaves
    the counter alone. *)
Lemma count_at_skips (fuel : nat) (polygon : Polygon) (line : Line.t)
      (intersections : list intersection) (i counter : nat)
      (this : intersection) (ed : Edge) (start_pt : Point.t) :
  nth_error intersections i = Some this ->
  edge_at polygon (edge this) = Ret ed ->
  Value_start (shape ed) = Some start_pt ->
  Point.equalTo (pt this) start_pt = true ->
  already_counted intersections i this (prev ed) = true ->
  count_at fuel polygon line intersections i counter = Ret counter.
Proof.
  intros Hthis Hed Hstart Hat Hskip. unfold count_at.
  rewrite Hthis. cbn [defined bind]. rewrite Hed. cbn [bind].
  rewrite Hstart. cbn [defined bind]. now rewrite Hat, Hskip.
Qed.


End Counting.



(** ** Termination of the walks *)

(** C6 (amended): a walk over zero-length predecessors, or successors, that
    ends at all ends within as many turns as the polygon has edges, with
    the same result; and on a polygon where every run of zero-length edges
    comes to an end [ray_shoot] returns or throws with that much fuel.  The
    code has no guard of its own against a ring made only of zero-length
    edges. *)
Theorem walks_end_within_edge_count `{E : Env} (polygon : Polygon) :
  (forall e fuel,
      RayShoot.walk_prev fuel polygon e <> OutOfFuel ->
      RayShoot.walk_prev (List.length (edges polygon)) polygon e
      = RayShoot.walk_prev fuel polygon e) /\
  (forall e fuel,
      RayShoot.walk_next fuel polygon e <> OutOfFuel ->
      RayShoot.walk_next (List.length (edges polygon)) polygon e
      = RayShoot.walk_next fuel polygon e) /\
  (arcs_return E -> nondegenerate polygon ->
   forall point,
     RayShoot.ray_shoot (List.length (edges polygon)) polygon point <> OutOfFuel).
Proof.
  split; [| split].
  - intros e fuel. rewrite !walk_prev_is_walk. apply walk_bounded.
  - intros e fuel. rewrite !walk_next_is_walk. apply walk_bounded.
  - intros Harcs Hpoly point. apply ray_shoot_returns; assumption.
Qed.

Lemma speck_ring_never_left (fuel : nat) :
  RayShoot.walk_prev (H := Table.env) fuel square_with_speck 4 = OutOfFuel /\
  RayShoot.walk_prev (H := Table.env) fuel square_with_speck 5 = OutOfFuel.
Proof.
  induction fuel as [| fuel [IH4 IH5]]; [split; vm_compute; reflexivity |].
  split.
  - change (RayShoot.walk_prev (H := Table.env) (S fuel) square_with_speck 4)
      with (RayShoot.walk_prev (H := Table.env) fuel square_with_speck 5).
    exact IH5.
  - change (RayShoot.walk_prev (H := Table.env) (S fuel) square_with_speck 5)
      with (RayShoot.walk_prev (H := Table.env) fuel square_with_speck 4).
    exact IH4.
Qed.

(** C6 as stated fails: on the unit square with a second ring of two
    zero-length edges the walk over predecessors is still running after any
    number of turns, and so is [ray_shoot] from (0.5, 0.5), whose ray passes
    through that ring. *)
Lemma walk_never_ends_on_speck :
  List.length (edges (H := Table.env) square_with_speck) = 6 /\
  (forall fuel,
      RayShoot.walk_prev (H := Table.env) fuel square_with_speck 5 = OutOfFuel) /\
  (forall fuel,
      RayShoot.ray_shoot (H := Table.env) fuel square_with_speck (Point.mk 0.5 0.5)
      = OutOfFuel).
Proof.
  split; [reflexivity | split].
  - intros fuel. apply speck_ring_never_left.
  - intros fuel. pose proof (proj2 (speck_ring_never_left fuel)) as Hwalk.
    lazy -[RayShoot.walk_prev] in Hwalk |- *.
    rewrite Hwalk. reflexivity.
Qed.

Lemma table_arcs_return : arcs_return Table.env.
Proof. intros a l. repeat split; discriminate. Qed.

Lemma diamond_nondegenerate : nondegenerate (H := Table.env) diamond.
Proof.
  intros i ed Hed.
  do 5 (destruct i as [| i];
        [injection Hed as <-; split; exists 2; vm_compute; reflexivity |]).
  destruct i; discriminate.
Qed.

Lemma walks_end_within_edge_count_witness :
  RayShoot.walk_prev (H := Table.env) 5 diamond 1 = Ret 0 /\
  RayShoot.walk_next (H := Table.env) 5 diamond 1 = Ret 2 /\
  RayShoot.ray_shoot (H := Table.env) 5 diamond (Point.mk 0 0) <> OutOfFuel.
Proof.
  destruct (walks_end_within_edge_count (E := Table.env) diamond)
    as (Hprev & Hnext & Hshoot).
  split; [| split].
  - refine (eq_trans (Hprev 1 1 _) _); vm_compute; [discriminate | reflexivity].
  - refine (eq_trans (Hnext 1 1 _) _); vm_compute; [discriminate | reflexivity].
  - apply (Hshoot table_arcs_return diamond_nondegenerate).
Defined.

(** An edge whose shape is a point makes [ray_shoot] throw. *)
Lemma ray_shoot_square_with_point `{Env} (fuel : nat) :
  RayShoot.ray_shoot fuel square_with_point (Point.mk 0.5 0.5) = Throw TypeError.
Proof. vm_compute. reflexivity. Qed.


(** * Further properties of the two source files *)

From Stdlib Require Import SpecFloat FloatOps FloatAxioms Permutation.

(** ** Order facts on binary64 numbers *)

Lemma SFcompare_refl_not_Lt (f : spec_float) : SFcompare f f <> Some Lt.
Proof.
  destruct f as [s | s | | s m e]; cbn.
  - discriminate.
  - destruct s; discriminate.
  - discriminate.
  - rewrite Z.compare_refl.
    change (Pos.compare_cont Eq m m) with (Pos.compare m m).
    rewrite Pos.compare_refl. destruct s; discriminate.
Qed.

(** [x < x] is false, NaN included. *)
Lemma lt_irrefl (x : float) : lt x x = false.
Proof.
  unfold lt. rewrite ltb_spec. unfold SFltb.
  pose proof (SFcompare_refl_not_Lt (Prim2SF x)) as Hn.
  destruct (SFcompare (Prim2SF x) (Prim2SF x)) as [[| |] |]; congruence.
Qed.

(** Nothing is above [+Infinity] or below [-Infinity]. *)
Lemma lt_infinity_l (x : float) : lt infinity x = false.
Proof.
  unfold lt. rewrite ltb_spec. unfold SFltb.
  change (Prim2SF infinity) with (S754_infinity false).
  destruct (Prim2SF x) as [s | s | | s m e]; cbn; try reflexivity.
  destruct s; reflexivity.
Qed.

Lemma lt_neg_infinity_r (x : float) : lt x neg_infinity = false.
Proof.
  unfold lt. rewrite ltb_spec. unfold SFltb.
  change (Prim2SF neg_infinity) with (S754_infinity true).
  destruct (Prim2SF x) as [s | s | | s m e]; cbn; try reflexivity;
    destruct s; reflexivity.
Qed.

Lemma SFleb_antisym_finite (s0 : bool) (m0 : positive) (e0 : Z) (x : spec_float) :
  SFleb (S754_finite s0 m0 e0) x = true ->
  SFleb x (S754_finite s0 m0 e0) = true ->
  x = S754_finite s0 m0 e0.
Proof.
  unfold SFleb. destruct x as [s | s | | s m e]; cbn.
  - destruct s0; discriminate.
  - destruct s0, s; discriminate.
  - discriminate.
  - rewrite (Z.compare_antisym e0 e).
    change (Pos.compare_cont Eq m m0) with (Pos.compare m m0).
    change (Pos.compare_cont Eq m0 m) with (Pos.compare m0 m).
    rewrite (Pos.compare_antisym m0 m).
    destruct s0, s; try discriminate;
      destruct (Z.compare_spec e0 e) as [He | He | He]; cbn; try discriminate;
      destruct (Pos.compare_spec m0 m) as [Hm | Hm | Hm]; cbn; try discriminate;
      intros _ _; now subst.
Qed.

(** [a <= s] and [s <= a] leave [s = a] when [a] is finite and not a zero. *)
Lemma le_antisym_finite (a s : float) (s0 : bool) (m0 : positive) (e0 : Z) :
  Prim2SF a = S754_finite s0 m0 e0 ->
  le a s = true -> le s a = true -> s = a.
Proof.
  unfold le. rewrite !leb_spec. intros Ha Has Hsa. rewrite Ha in Has, Hsa.
  apply Prim2SF_inj. rewrite Ha. now apply SFleb_antisym_finite.
Qed.

(** A number that is at least a positive one does not equal zero. *)
Lemma above_positive_not_zero (a s : float) (m0 : positive) (e0 : Z) :
  Prim2SF a = S754_finite false m0 e0 ->
  le a s = true -> eq s 0%float = false.
Proof.
  unfold le, eq. rewrite leb_spec, eqb_spec. intros Ha. rewrite Ha.
  change (Prim2SF 0%float) with (S754_zero false).
  unfold SFleb, SFeqb. destruct (Prim2SF s) as [sg | sg | | sg m e]; cbn;
    try discriminate; try reflexivity; destruct sg; try discriminate; reflexivity.
Qed.

(** ** Containment of the origin *)

(** A number that is neither NaN nor infinite is a zero or a finite
    non-zero number. *)
Lemma finite_shape (x : float) :
  is_finite x = true ->
  (exists s, Prim2SF x = S754_zero s) \/ (exists s m e, Prim2SF x = S754_finite s m e).
Proof.
  unfold is_finite, is_nan, is_infinity. rewrite !eqb_spec, abs_spec.
  change (Prim2SF infinity) with (S754_infinity false).
  destruct (Prim2SF x) as [s | s | | s m e]; cbn.
  - intros _. left. exists s. reflexivity.
  - destruct s; discriminate.
  - discriminate.
  - intros _. right. exists s, m, e. reflexivity.
Qed.

(** A finite number minus itself is [+0]. *)
Lemma sub_self_finite (x : float) : is_finite x = true -> (x - x)%float = 0%float.
Proof.
  intros Hx. apply Prim2SF_inj. rewrite sub_spec.
  change (Prim2SF 0%float) with (S754_zero false).
  destruct (finite_shape x Hx) as [[s ->] | (s & m & e & ->)].
  - destruct s; reflexivity.
  - unfold SF64sub, SFsub. rewrite Z.sub_diag. reflexivity.
Qed.

(** Tolerance equality is reflexive on finite numbers, and so on points with
    finite coordinates. *)
Lemma EQ_refl_finite (x : float) : is_finite x = true -> EQ x x = true.
Proof.
  intros Hx. unfold EQ. rewrite (sub_self_finite x Hx). reflexivity.
Qed.

Lemma equalTo_refl_finite (p : Point.t) :
  is_finite (Point.x p) = true -> is_finite (Point.y p) = true ->
  Point.equalTo p p = true.
Proof.
  intros Hx Hy. unfold Point.equalTo.
  now rewrite (EQ_refl_finite _ Hx), (EQ_refl_finite _ Hy).
Qed.

(** C7: a ray contains [p] exactly when [p] equals the origin under
    tolerance, or the vector from the origin to [p] has a dot product with
    the normal that is zero under tolerance and a cross product with the
    normal that is non-negative under tolerance; in particular a ray
    contains its own origin, for every origin with finite coordinates and
    every normal. *)
Theorem contains_characterised (r : Ray.t) :
  (forall p,
      Ray.contains r p = true <->
      Point.equalTo (Ray.pt r) p = true \/
      (EQ_0 (Vector.dot (Ray.norm r) (Vector_of_points (Ray.pt r) p)) = true /\
       GE (Vector.cross (Vector_of_points (Ray.pt r) p) (Ray.norm r)) 0%float = true))
  /\ (is_finite (Point.x (Ray.pt r)) = true ->
      is_finite (Point.y (Ray.pt r)) = true ->
      Ray.contains r (Ray.pt r) = true).
Proof.
  split.
  - intros p. unfold Ray.contains.
    destruct (Point.equalTo (Ray.pt r) p).
    + split; [left; reflexivity | reflexivity].
    + rewrite andb_true_iff. split.
      * intros Hc. right. exact Hc.
      * intros [Hp | Hc]; [discriminate | exact Hc].
  - intros Hx Hy. unfold Ray.contains.
    now rewrite (equalTo_refl_finite _ Hx Hy).
Qed.

Lemma contains_characterised_witness :
  is_finite (Point.x (Ray.pt (Ray.mk (Point.mk 3 (-2)) (Vector.mk 1 1)))) = true /\
  is_finite (Point.y (Ray.pt (Ray.mk (Point.mk 3 (-2)) (Vector.mk 1 1)))) = true /\
  Ray.contains (Ray.mk (Point.mk 3 (-2)) (Vector.mk 1 1)) (Point.mk 3 (-2)) = true.
Proof.
  split; [vm_compute; reflexivity | split; [vm_compute; reflexivity |]].
  apply (proj2 (contains_characterised (Ray.mk (Point.mk 3 (-2)) (Vector.mk 1 1))));
    vm_compute; reflexivity.
Defined.

Lemma filter_length_le {A : Type} (f : A -> bool) (l : list A) :
  List.length (filter f l) <= List.length l.
Proof.
  induction l as [| a l IH]; cbn; [lia |]. destruct (f a); cbn; lia.
Qed.

(** ** The ray primitive *)

Section MoreRay.
Context `{Env}.

(** X1: [new Ray(...args)] throws, and then the illegal-parameters error,
    exactly when it is given three or more arguments or two of which the
    second is not a vector; whenever it returns, the origin is the first
    argument if that is a point and (0,0) otherwise, and the normal is the
    second argument if that is a vector and (0,1) otherwise. *)
Theorem constructor_outcome (args : list Value) :
  (Ray.constructor args = Throw ILLEGAL_PARAMETERS <->
   (3 <= List.length args \/
    (List.length args = 2 /\ forall v, nth_error args 1 <> Some (VVector v)))) /\
  (forall e, Ray.constructor args = Throw e -> e = ILLEGAL_PARAMETERS) /\
  Ray.constructor args <> OutOfFuel /\
  (forall r,
      Ray.constructor args = Ret r ->
      Ray.pt r = match nth_error args 0 with
                 | Some (VPoint p) => p
                 | _ => Point.mk 0 0
                 end /\
      Ray.norm r = match nth_error args 1 with
                   | Some (VVector v) => v
                   | _ => Vector.mk 0 1
                   end).
Proof.
  split; [apply constructor_throws_iff |].
  destruct args as [| a [| b [| c rest]]].
  - cbn. repeat split; try discriminate; injection H0 as <-; reflexivity.
  - destruct a; cbn; repeat split; try discriminate;
      injection H0 as <-; cbn; rewrite ?Point_clone_id; reflexivity.
  - destruct a, b; cbn; repeat split; try discriminate; try congruence;
      injection H0 as <-; cbn; rewrite ?Point_clone_id, ?Vector_clone_id;
      reflexivity.
  - unfold Ray.constructor. cbn [List.length Nat.eqb nth_error].
    destruct b; repeat split; try discriminate; congruence.
Qed.

(** X2: [clone] never throws and returns a ray with the same origin and the
    same normal. *)
Theorem clone_returns_same_ray (r : Ray.t) : Ray.clone r = Ret r.
Proof.
  unfold Ray.clone. rewrite constructor_point_vector. now destruct r.
Qed.

(** X3: [split] never throws although it calls the constructor; it returns
    at most two parts, and none exactly when the ray does not contain the
    point. *)
Theorem split_never_throws (r : Ray.t) (p : Point.t) :
  exists parts,
    Ray.split r p = Ret parts /\
    List.length parts <= 2 /\
    (parts = [] <-> Ray.contains r p = false).
Proof.
  unfold Ray.split. destruct (Ray.contains r p) eqn:Hc; cbn [negb].
  - destruct (Point.equalTo (Ray.pt r) p).
    + eexists. split; [reflexivity |]. split; [cbn; lia |].
      split; discriminate.
    + rewrite constructor_point_vector. cbn [bind].
      eexists. split; [reflexivity |]. split; [cbn; lia |].
      split; discriminate.
  - exists []. split; [reflexivity |]. split; [cbn; lia |]. tauto.
Qed.

(** X4: whatever [intersect] returns for a segment, it returns no more
    points than the line through the ray meets the segment in; each of them
    lies on that line, and is either one of the line's points that the ray
    contains or the ray's own origin. *)
Theorem intersect_segment_points (ray : Ray.t) (s : Segment.t)
        (ip_tmp ips : list Point.t) :
  intersectSegment2Line s (Line.new (Ray.pt ray) (Ray.norm ray)) = Ret ip_tmp ->
  Ray.intersect ray (VSegment s) = Ret (Some ips) ->
  List.length ips <= List.length ip_tmp /\
  (forall p, In p ips ->
             Point_on p (Line.new (Ray.pt ray) (Ray.norm ray)) = true /\
             ((In p ip_tmp /\ Ray.contains ray p = true) \/ p = Ray.pt ray)).
Proof.
  intros Hline Hres. cbn [Ray.intersect] in Hres.
  unfold Ray.intersectRay2Segment, Ray.start in Hres.
  destruct (Box.not_intersect (Ray.box ray) (Segment.box s)).
  - cbn in Hres. injection Hres as <-. split; [cbn; lia | intros p []].
  - rewrite Hline in Hres. cbn [bind] in Hres.
    assert (Hkept : forall p, In p (filter (Ray.contains ray) ip_tmp) ->
                              Point_on p (Line.new (Ray.pt ray) (Ray.norm ray)) = true /\
                              ((In p ip_tmp /\ Ray.contains ray p = true) \/ p = Ray.pt ray)).
    { intros p Hp. apply filter_In in Hp. destruct Hp as [Hin Hc].
      split; [apply contains_on_line; exact Hc | left; split; assumption]. }
    destruct (List.length ip_tmp =? 2) eqn:Htwo;
      destruct (List.length (filter (Ray.contains ray) ip_tmp) =? 1) eqn:Hone;
      destruct (Point_on (Ray.pt ray) (Line.new (Ray.pt ray) (Ray.norm ray))) eqn:Hon;
      cbn [andb bind] in Hres; injection Hres as <-;
      try (split; [apply filter_length_le | exact Hkept]).
    apply Nat.eqb_eq in Htwo, Hone. split.
    + rewrite length_app, Hone, Htwo. cbn. lia.
    + intros p Hp. apply in_app_or in Hp. destruct Hp as [Hp | [<- | []]].
      * apply Hkept. exact Hp.
      * split; [exact Hon | right; reflexivity].
Qed.

(** X5: whatever [intersect] returns for an arc is a selection of the points
    the line through the ray meets the arc in, each contained in the ray. *)
Theorem intersect_arc_points (ray : Ray.t) (a : Arc)
        (ip_tmp ips : list Point.t) :
  intersectLine2Arc (Line.new (Ray.pt ray) (Ray.norm ray)) a = Ret ip_tmp ->
  Ray.intersect ray (VArc a) = Ret (Some ips) ->
  List.length ips <= List.length ip_tmp /\
  (forall p, In p ips -> In p ip_tmp /\ Ray.contains ray p = true).
Proof.
  intros Hline Hres. cbn [Ray.intersect] in Hres.
  unfold Ray.intersectRay2Arc, Ray.start in Hres.
  destruct (Box.not_intersect (Ray.box ray) (Arc_box a)).
  - cbn in Hres. injection Hres as <-. split; [cbn; lia | intros p []].
  - rewrite Hline in Hres. cbn [bind] in Hres. injection Hres as <-.
    split; [apply filter_length_le |].
    intros p Hp. apply filter_In in Hp. exact Hp.
Qed.

(** X6: the recovery rule of [intersectRay2Segment] does not check whether
    the origin was the point that was kept: when the line meets the segment
    in [a] and [b], [a] equals the ray's origin under tolerance and the ray
    does not contain [b], the origin is reported a second time. *)
Theorem intersect_reports_origin_twice (ray : Ray.t) (s : Segment.t)
        (a b : Point.t) :
  Box.not_intersect (Ray.box ray) (Segment.box s) = false ->
  intersectSegment2Line s (Line.new (Ray.pt ray) (Ray.norm ray)) = Ret [a; b] ->
  Point.equalTo (Ray.pt ray) a = true ->
  Ray.contains ray b = false ->
  Point_on (Ray.pt ray) (Line.new (Ray.pt ray) (Ray.norm ray)) = true ->
  Ray.intersect ray (VSegment s) = Ret (Some [a; Ray.pt ray]).
Proof.
  intros Hbox Hline Ha Hb Hon. cbn [Ray.intersect].
  unfold Ray.intersectRay2Segment, Ray.start. rewrite Hbox, Hline. cbn [bind filter].
  assert (Hca : Ray.contains ray a = true)
    by (unfold Ray.contains; now rewrite Ha).
  rewrite Hca, Hb. cbn [List.length Nat.eqb andb].
  now rewrite Hon.
Qed.

(** X7: the ray [ray_shoot] builds from a point has slope [-0] in every
    engine, and its box is the half line's: from the point's x to
    +Infinity, flat at the point's y. *)
Theorem shot_has_half_line_box (p : Point.t) :
  Ray.constructor [VPoint p] = Ret (shot p) /\
  Ray.slope (shot p) = (- 0)%float /\
  Ray.box (shot p) = Box.mk (Point.x p) (Point.y p) infinity (Point.y p).
Proof.
  split; [apply constructor_point | split; reflexivity].
Qed.

(** X8: the box of a ray always meets the box of the ray's origin, whatever
    the slope and the coordinates, NaN and infinities included. *)
Theorem box_meets_origin (r : Ray.t) :
  Box.not_intersect (Ray.box r) (Point.box (Ray.pt r)) = false.
Proof.
  unfold Box.not_intersect, Ray.box, Point.box, gt.
  cbn [Box.xmin Box.xmax Box.ymin Box.ymax].
  unfold Number.NEGATIVE_INFINITY, Number.POSITIVE_INFINITY.
  repeat match goal with
         | |- context [if ?c then _ else _] => destruct c
         end;
    rewrite ?lt_irrefl, ?lt_infinity_l, ?lt_neg_infinity_r; reflexivity.
Qed.

(** X9: the box of a ray is never bounded: for every slope, NaN included,
    at least one of its four bounds is infinite. *)
Theorem box_is_unbounded (r : Ray.t) :
  Box.xmin (Ray.box r) = neg_infinity \/ Box.ymin (Ray.box r) = neg_infinity \/
  Box.xmax (Ray.box r) = infinity \/ Box.ymax (Ray.box r) = infinity.
Proof.
  unfold Ray.box. cbn [Box.xmin Box.ymin Box.xmax Box.ymax].
  unfold Number.NEGATIVE_INFINITY, Number.POSITIVE_INFINITY.
  set (s := Ray.slope r). cbv zeta.
  destruct (gt s (Math.PI / 2) && lt s (3 * Math.PI / 2)) eqn:Hxmin; [auto |].
  destruct (ge s 0 && le s Math.PI) eqn:Hymin; [| auto].
  destruct (ge s (Math.PI / 2) && le s (3 * Math.PI / 2)) eqn:Hxmax; [| auto].
  destruct (ge s Math.PI && le s (2 * Math.PI) || eq s 0) eqn:Hymax; [| auto].
  exfalso.
  apply andb_true_iff in Hymin, Hxmax. destruct Hymin as [_ Hpi], Hxmax as [Hhalf _].
  unfold ge in Hhalf.
  destruct (Prim2SF (Math.PI / 2)) as [sg | sg | | sg m0 e0] eqn:Hh;
    try (vm_compute in Hh; discriminate).
  assert (sg = false) by (vm_compute in Hh; congruence). subst sg.
  rewrite (above_positive_not_zero _ s _ _ Hh Hhalf), orb_false_r in Hymax.
  apply andb_true_iff in Hymax. destruct Hymax as [Hge _]. unfold ge in Hge.
  destruct (Prim2SF Math.PI) as [sg | sg | | sg m1 e1] eqn:Hp;
    try (vm_compute in Hp; discriminate).
  rewrite (le_antisym_finite Math.PI s _ _ _ Hp Hge Hpi) in Hxmin.
  vm_compute in Hxmin. discriminate.
Qed.
End MoreRay.

(** ** Ray shooting: collecting the intersections *)

Lemma insert_perm (cmp : RayShoot.intersection -> RayShoot.intersection -> Z)
      (a : RayShoot.intersection) (l : list RayShoot.intersection) :
  Permutation (RayShoot.insert cmp a l) (a :: l).
Proof.
  induction l as [| b l IH]; cbn; [reflexivity |].
  destruct (cmp a b <? 0)%Z; [reflexivity |].
  rewrite IH. apply perm_swap.
Qed.

(** Sorting neither loses nor invents an intersection. *)
Lemma sort_perm (cmp : RayShoot.intersection -> RayShoot.intersection -> Z)
      (l : list RayShoot.intersection) :
  Permutation (RayShoot.sort cmp l) l.
Proof.
  unfold RayShoot.sort.
  assert (Hgen : forall acc,
             Permutation (fold_left (fun acc a => RayShoot.insert cmp a acc) l acc)
                         (acc ++ l)).
  { induction l as [| a l IH]; intros acc; cbn.
    - now rewrite app_nil_r.
    - rewrite IH, insert_perm. apply Permutation_middle. }
  apply (Hgen []).
Qed.

Ltac outcome_inv H :=
  repeat match type of H with
         | bind ?m _ = Ret _ =>
             let Hm := fresh "Hm" in
             destruct m eqn:Hm; cbn [bind] in H; [| discriminate | discriminate]
         | (if ?c then _ else _) = Ret _ =>
             let Hc := fresh "Hc" in destruct c eqn:Hc
         | (let _ := _ in _) = Ret _ => cbv zeta in H
         | match ?v with _ => _ end = Ret _ =>
             let Hv := fresh "Hv" in destruct v eqn:Hv
         end.

Section MoreShoot.
Context `{Env}.
Import RayShoot.

(** The inner loop of step 3 stops at the first point equal to the query
    point, and otherwise appends one entry per point, in order. *)
Lemma push_points_spec (point : Point.t) (e : nat) (ips : list Point.t)
      (acc : list intersection) :
  push_points point e ips acc
  = if existsb (fun ip => Point.equalTo ip point) ips then None
    else Some (acc ++ map (fun ip => mk ip e) ips).
Proof.
  revert acc. induction ips as [| ip ips IH]; intros acc; cbn.
  - now rewrite app_nil_r.
  - destruct (Point.equalTo ip point); cbn; [reflexivity |].
    rewrite IH. destruct (existsb _ ips); [reflexivity |].
    now rewrite <- app_assoc.
Qed.

Lemma intersect_edges_cons (polygon : Polygon) (ray : Ray.t) (point : Point.t)
      (e : nat) (rest : list nat) (acc : list intersection) :
  intersect_edges polygon ray point (e :: rest) acc
  = (ips <- hits polygon ray e ;;
     match push_points point e ips acc with
     | None => Ret None
     | Some acc' => intersect_edges polygon ray point rest acc'
     end).
Proof.
  cbn [intersect_edges]. unfold hits.
  destruct (edge_at polygon e) as [ed | |]; cbn [bind]; try reflexivity.
  destruct (Ray.intersect ray (shape ed)); cbn [bind]; reflexivity.
Qed.

Lemma hits_inv (polygon : Polygon) (ray : Ray.t) (e : nat) (ips : list Point.t) :
  hits polygon ray e = Ret ips ->
  exists ed, nth_error (edges polygon) e = Some ed /\
             Ray.intersect ray (shape ed) = Ret (Some ips).
Proof.
  unfold hits, edge_at. intros Hh.
  destruct (nth_error (edges polygon) e) as [ed |]; cbn [defined bind] in Hh;
    try discriminate.
  destruct (Ray.intersect ray (shape ed)) as [[l |] | |] eqn:Hint;
    cbn [bind defined] in Hh; try discriminate.
  injection Hh as <-. exists ed. split; [reflexivity | exact Hint].
Qed.

(** An early [return BOUNDARY] comes from a hit that equals the point. *)
Lemma boundary_sound (polygon : Polygon) (ray : Ray.t) (point : Point.t)
      (resp_edges : list nat) (acc : list intersection) :
  intersect_edges polygon ray point resp_edges acc = Ret None ->
  exists e ips ip,
    In e resp_edges /\ hits polygon ray e = Ret ips /\ In ip ips /\
    Point.equalTo ip point = true.
Proof.
  revert acc. induction resp_edges as [| e rest IH]; intros acc Hres.
  - discriminate.
  - rewrite intersect_edges_cons in Hres.
    destruct (hits polygon ray e) as [ips | |] eqn:Hips; cbn [bind] in Hres;
      try discriminate.
    rewrite push_points_spec in Hres.
    destruct (existsb (fun ip => Point.equalTo ip point) ips) eqn:Hex.
    + apply existsb_exists in Hex. destruct Hex as (ip & Hin & Heq).
      exists e, ips, ip. cbn. auto.
    + destruct (IH _ Hres) as (e' & ips' & ip & Hin & Hh & Hip & Heq).
      exists e', ips', ip. cbn. auto.
Qed.

(** What step 3 hands to the sort extends what it started from by hits of
    the candidate edges, none of them equal to the point. *)
Lemma collected_are_hits (polygon : Polygon) (ray : Ray.t) (point : Point.t)
      (resp_edges : list nat) (acc found : list intersection) :
  intersect_edges polygon ray point resp_edges acc = Ret (Some found) ->
  exists added,
    found = acc ++ added /\
    forall this, In this added ->
      In (edge this) resp_edges /\
      Point.equalTo (pt this) point = false /\
      exists ips, hits polygon ray (edge this) = Ret ips /\ In (pt this) ips.
Proof.
  revert acc. induction resp_edges as [| e rest IH]; intros acc Hres.
  - cbn in Hres. injection Hres as <-. exists []. split; [now rewrite app_nil_r |].
    intros this [].
  - rewrite intersect_edges_cons in Hres.
    destruct (hits polygon ray e) as [ips | |] eqn:Hips; cbn [bind] in Hres;
      try discriminate.
    rewrite push_points_spec in Hres.
    destruct (existsb (fun ip => Point.equalTo ip point) ips) eqn:Hex;
      [discriminate |].
    destruct (IH _ Hres) as (added & -> & Hadded).
    exists (map (fun ip => mk ip e) ips ++ added). split; [now rewrite app_assoc |].
    intros this Hin. apply in_app_or in Hin. destruct Hin as [Hin | Hin].
    + apply in_map_iff in Hin. destruct Hin as (ip & <- & Hip). cbn.
      split; [left; reflexivity |]. split.
      * destruct (Point.equalTo ip point) eqn:Heq; [| reflexivity].
        assert (Hcontra : existsb (fun ip => Point.equalTo ip point) ips = true)
          by (apply existsb_exists; exists ip; auto).
        congruence.
      * exists ips. auto.
    + destruct (Hadded this Hin) as (He & Hne & Hh). split; [right; exact He |].
      split; assumption.
Qed.

(** X10: a polygon without edges has every point outside, whatever the
    point's coordinates. *)
Theorem ray_shoot_no_edges (fuel : nat) (point : Point.t) :
  ray_shoot fuel {| edges := [] |} point = Ret OUTSIDE.
Proof.
  unfold ray_shoot.
  destruct (Box.not_intersect _ _); [reflexivity |].
  rewrite constructor_point. reflexivity.
Qed.

(** X11: a point strictly beyond the polygon's box on any side is OUTSIDE
    before any edge is looked at, so that no edge, however malformed, can
    make this call throw or loop. *)
Theorem ray_shoot_outside_box (fuel : nat) (polygon : Polygon) (point : Point.t) :
  lt (Box.xmax (Polygon_box polygon)) (Point.x point) = true \/
  lt (Point.x point) (Box.xmin (Polygon_box polygon)) = true \/
  lt (Box.ymax (Polygon_box polygon)) (Point.y point) = true \/
  lt (Point.y point) (Box.ymin (Polygon_box polygon)) = true ->
  ray_shoot fuel polygon point = Ret OUTSIDE.
Proof.
  intros Hout. unfold ray_shoot.
  assert (Hreject : Box.not_intersect (Polygon_box polygon) (Point.box point) = true).
  { unfold Box.not_intersect, Point.box, gt, lt in *.
    cbn [Box.xmin Box.xmax Box.ymin Box.ymax].
    destruct Hout as [-> | [-> | [-> | ->]]];
      rewrite ?orb_true_r; reflexivity. }
  now rewrite Hreject.
Qed.

(** X12: when every candidate edge yields its intersections, step 3 returns
    BOUNDARY exactly when one of those intersection points equals the query
    point under tolerance. *)
Theorem boundary_iff_hit (polygon : Polygon) (ray : Ray.t) (point : Point.t)
        (resp_edges : list nat) (acc : list intersection) :
  (forall e, In e resp_edges -> exists ips, hits polygon ray e = Ret ips) ->
  (intersect_edges polygon ray point resp_edges acc = Ret None <->
   exists e ips ip,
     In e resp_edges /\ hits polygon ray e = Ret ips /\ In ip ips /\
     Point.equalTo ip point = true).
Proof.
  intros Hall. split; [apply boundary_sound |].
  revert acc. induction resp_edges as [| e rest IH]; intros acc.
  - intros (e & _ & _ & [] & _).
  - rewrite intersect_edges_cons.
    destruct (Hall e (or_introl eq_refl)) as [ips Hips]. rewrite Hips. cbn [bind].
    rewrite push_points_spec.
    destruct (existsb (fun ip => Point.equalTo ip point) ips) eqn:Hex;
      [reflexivity |].
    intros (e' & ips' & ip & [<- | Hin] & Hh & Hip & Heq).
    + rewrite Hips in Hh. injection Hh as <-.
      assert (Hcontra : existsb (fun ip => Point.equalTo ip point) ips = true)
        by (apply existsb_exists; exists ip; auto).
      congruence.
    + apply IH.
      * intros e0 He0. apply Hall. right. exact He0.
      * exists e', ips', ip. auto.
Qed.

(** X13: every intersection that step 3 records pairs a candidate edge with
    one of the points [intersect] returned for that edge's shape, a point
    that does not equal the query point. *)
Theorem intersections_are_hits (polygon : Polygon) (ray : Ray.t) (point : Point.t)
        (resp_edges : list nat) (found : list intersection) :
  intersect_edges polygon ray point resp_edges [] = Ret (Some found) ->
  forall this, In this found ->
    In (edge this) resp_edges /\
    Point.equalTo (pt this) point = false /\
    exists ed ips,
      nth_error (edges polygon) (edge this) = Some ed /\
      Ray.intersect ray (shape ed) = Ret (Some ips) /\ In (pt this) ips.
Proof.
  intros Hres this Hin.
  destruct (collected_are_hits _ _ _ _ _ _ Hres) as (added & Hfound & Hadded).
  cbn [app] in Hfound. subst added.
  destruct (Hadded this Hin) as (He & Hne & ips & Hh & Hip).
  destruct (hits_inv _ _ _ _ Hh) as (ed & Hed & Hint).
  split; [exact He |]. split; [exact Hne |]. exists ed, ips. auto.
Qed.
End MoreShoot.

(** ** Ray shooting: counting *)

Section WalkResult.
Context `{Env}.
Variable link : Edge -> nat.
Variable polygon : Polygon.

(** A walk returns [r] exactly when [r] is reached from the start over
    zero-length edges only, within the fuel, and [r] itself is an edge whose
    length is not zero. *)
Lemma walk_returns_iff (fuel e r : nat) :
  walk link polygon fuel e = Ret r <->
  exists k ed,
    k <= fuel /\ chain link polygon k e = Some r /\
    nth_error (edges polygon) r = Some ed /\ EQ_0 (Edge_length ed) = false.
Proof.
  revert e. induction fuel as [| fuel IH]; intros e.
  - cbn [walk]. unfold edge_at.
    destruct (nth_error (edges polygon) e) as [ed |] eqn:He; cbn [defined bind].
    + destruct (EQ_0 (Edge_length ed)) eqn:Hz; split.
      * discriminate.
      * intros (k & ed' & Hk & Hc & Hr & Hnz).
        assert (k = 0) by lia. subst k. cbn in Hc. injection Hc as <-. congruence.
      * intros [= <-]. exists 0, ed. cbn. auto.
      * intros (k & ed' & Hk & Hc & Hr & Hnz).
        assert (k = 0) by lia. subst k. cbn in Hc. now injection Hc as <-.
    + split; [discriminate |].
      intros (k & ed' & Hk & Hc & Hr & Hnz).
      assert (k = 0) by lia. subst k. cbn in Hc. injection Hc as <-. congruence.
  - cbn [walk]. unfold edge_at.
    destruct (nth_error (edges polygon) e) as [ed |] eqn:He; cbn [defined bind].
    + destruct (EQ_0 (Edge_length ed)) eqn:Hz.
      * rewrite IH. split.
        -- intros (k & ed' & Hk & Hc & Hr & Hnz).
           exists (S k), ed'. cbn [chain]. rewrite He, Hz. repeat split; auto. lia.
        -- intros (k & ed' & Hk & Hc & Hr & Hnz).
           destruct k as [| k].
           ++ cbn in Hc. injection Hc as <-. congruence.
           ++ cbn [chain] in Hc. rewrite He, Hz in Hc.
              exists k, ed'. repeat split; auto. lia.
      * split.
        -- intros [= <-]. exists 0, ed. cbn. repeat split; auto. lia.
        -- intros (k & ed' & Hk & Hc & Hr & Hnz).
           destruct k as [| k].
           ++ cbn in Hc. now injection Hc as <-.
           ++ cbn [chain] in Hc. rewrite He, Hz in Hc. discriminate.
    + split; [discriminate |].
      intros (k & ed' & Hk & Hc & Hr & Hnz).
      destruct k as [| k].
      * cbn in Hc. injection Hc as <-. congruence.
      * cbn [chain] in Hc. rewrite He in Hc. discriminate.
Qed.
End WalkResult.

Section MoreCounting.
Context `{Env}.
Import RayShoot.

Lemma count_at_step (fuel : nat) (polygon : Polygon) (line : Line.t)
      (intersections : list intersection) (i counter counter' : nat) :
  count_at fuel polygon line intersections i counter = Ret counter' ->
  counter' = counter \/ counter' = counter + 1.
Proof.
  intros Hres. unfold count_at in Hres. outcome_inv Hres;
    injection Hres as <-; auto.
Qed.

Lemma count_from_range (fuel : nat) (polygon : Polygon) (line : Line.t)
      (intersections : list intersection) (todo i counter counter' : nat) :
  count_from fuel polygon line intersections todo i counter = Ret counter' ->
  counter <= counter' <= counter + todo.
Proof.
  revert i counter. induction todo as [| todo IH]; intros i counter Hres;
    cbn [count_from] in Hres.
  - injection Hres as <-. lia.
  - destruct (count_at fuel polygon line intersections i counter) as [c | |] eqn:Hat;
      cbn [bind] in Hres; try discriminate.
    apply count_at_step in Hat. apply IH in Hres. lia.
Qed.

(** Intersections in the interior of straight edges are all counted. *)
Lemma count_from_straight (fuel : nat) (polygon : Polygon) (line : Line.t)
      (intersections : list intersection) :
  (forall this, In this intersections ->
     exists ed s, edge_at polygon (edge this) = Ret ed /\ shape ed = VSegment s /\
                  Point.equalTo (pt this) (Segment.start s) = false /\
                  Point.equalTo (pt this) (Segment.end_ s) = false) ->
  forall todo i counter,
    i + todo <= List.length intersections ->
    count_from fuel polygon line intersections todo i counter = Ret (counter + todo).
Proof.
  intros Hall. induction todo as [| todo IH]; intros i counter Hlen;
    cbn [count_from].
  - f_equal. lia.
  - destruct (nth_error intersections i) as [this |] eqn:Hthis.
    2: { apply nth_error_None in Hthis. lia. }
    destruct (Hall this (nth_error_In _ _ Hthis)) as (ed & s & Hed & Hs & Hns & Hne).
    assert (Hat : count_at fuel polygon line intersections i counter
                  = Ret (counter + 1)).
    { unfold count_at. rewrite Hthis. cbn [defined bind]. rewrite Hed. cbn [bind].
      rewrite Hs. cbn [Value_start Value_end defined bind]. now rewrite Hns, Hne. }
    rewrite Hat. cbn [bind]. rewrite IH by lia. f_equal. lia.
Qed.

(** X14: a turn of the counting loop that returns leaves the counter as it
    was or adds one to it, and the whole loop never counts more crossings
    than it is given intersections. *)
Theorem counter_bounds (fuel : nat) (polygon : Polygon) (line : Line.t)
        (intersections : list intersection) (counter counter' : nat) :
  (forall i,
      count_at fuel polygon line intersections i counter = Ret counter' ->
      counter' = counter \/ counter' = counter + 1) /\
  (forall todo i,
      count_from fuel polygon line intersections todo i counter = Ret counter' ->
      counter <= counter' <= counter + todo).
Proof.
  split.
  - intros i. apply count_at_step.
  - intros todo i. apply count_from_range.
Qed.

(** X15: an intersection at the start vertex of its edge that equals the
    entry sorted just before it, when that entry belongs to the edge's
    predecessor, leaves the counter alone, and so does one at the end vertex
    when that entry belongs to the successor; in both cases neither a walk
    nor a tangent is evaluated. *)
Theorem count_at_already_counted (fuel : nat) (polygon : Polygon) (line : Line.t)
        (intersections : list intersection) (i counter : nat)
        (this before : intersection) (ed : Edge) :
  nth_error intersections i = Some this ->
  0 < i ->
  nth_error intersections (i - 1) = Some before ->
  Point.equalTo (pt this) (pt before) = true ->
  edge_at polygon (edge this) = Ret ed ->
  (forall start_pt,
      Value_start (shape ed) = Some start_pt ->
      Point.equalTo (pt this) start_pt = true ->
      prev ed = edge before ->
      count_at fuel polygon line intersections i counter = Ret counter) /\
  (forall start_pt end_pt,
      Value_start (shape ed) = Some start_pt ->
      Point.equalTo (pt this) start_pt = false ->
      Value_end (shape ed) = Some end_pt ->
      Point.equalTo (pt this) end_pt = true ->
      next ed = edge before ->
      count_at fuel polygon line intersections i counter = Ret counter).
Proof.
  intros Hthis Hi Hbefore Hsame Hed.
  assert (Hskip : forall neighbour, neighbour = edge before ->
                    already_counted intersections i this neighbour = true).
  { intros neighbour ->. unfold already_counted. rewrite Hbefore, Hsame, Nat.eqb_refl.
    apply Nat.ltb_lt in Hi. now rewrite Hi. }
  split.
  - intros start_pt Hstart Hat Hprev. unfold count_at.
    rewrite Hthis. cbn [defined bind]. rewrite Hed. cbn [bind].
    rewrite Hstart. cbn [defined bind]. now rewrite Hat, (Hskip _ Hprev).
  - intros start_pt end_pt Hstart Hns Hend Hat Hnext. unfold count_at.
    rewrite Hthis. cbn [defined bind]. rewrite Hed. cbn [bind].
    rewrite Hstart. cbn [defined bind]. rewrite Hns, Hend. cbn [defined bind].
    now rewrite Hat, (Hskip _ Hnext).
Qed.

(** X16: a walk over predecessors, or successors, returns the edge [r]
    exactly when [r] is reached from where the walk starts by following the
    link over edges of zero length only, in no more turns than the fuel, and
    [r] is the first edge met whose length is not zero under tolerance. *)
Theorem walks_stop_on_first_nonzero (fuel : nat) (polygon : Polygon) (e r : nat) :
  (walk_prev fuel polygon e = Ret r <->
   exists k ed,
     k <= fuel /\ chain prev polygon k e = Some r /\
     nth_error (edges polygon) r = Some ed /\ EQ_0 (Edge_length ed) = false) /\
  (walk_next fuel polygon e = Ret r <->
   exists k ed,
     k <= fuel /\ chain next polygon k e = Some r /\
     nth_error (edges polygon) r = Some ed /\ EQ_0 (Edge_length ed) = false).
Proof.
  rewrite walk_prev_is_walk, walk_next_is_walk. split; apply walk_returns_iff.
Qed.

(** ** Ray shooting: the answer *)

(** X17: [ray_shoot] answers BOUNDARY only when some edge of the polygon has
    a shape that the ray shot from the point meets in a point equal to the
    query point under tolerance. *)
Theorem ray_shoot_boundary_needs_hit (fuel : nat) (polygon : Polygon)
        (point : Point.t) :
  ray_shoot fuel polygon point = Ret BOUNDARY ->
  exists e ed ips ip,
    nth_error (edges polygon) e = Some ed /\
    Ray.intersect (shot point) (shape ed) = Ret (Some ips) /\
    In ip ips /\ Point.equalTo ip point = true.
Proof.
  unfold ray_shoot. rewrite constructor_point. cbn [bind]. fold (shot point).
  intros Hres.
  destruct (Box.not_intersect _ _); [discriminate |].
  destruct (List.length _ =? 0); [discriminate |].
  destruct (intersect_edges _ _ _ _ _) as [[found |] | |] eqn:Hfound;
    cbn [bind] in Hres; try discriminate.
  - destruct (count_from _ _ _ _ _ _ _); cbn [bind] in Hres; try discriminate.
    destruct (_ =? 1); discriminate.
  - apply boundary_sound in Hfound.
    destruct Hfound as (e & ips & ip & Hin & Hh & Hip & Heq).
    apply hits_inv in Hh. destruct Hh as (ed & Hed & Hint).
    exists e, ed, ips, ip. auto.
Qed.

(** X18: [ray_shoot] answers INSIDE only when some edge of the polygon has a
    shape that the ray shot from the point meets, in a point that does not
    equal the query point. *)
Theorem ray_shoot_inside_needs_hit (fuel : nat) (polygon : Polygon)
        (point : Point.t) :
  ray_shoot fuel polygon point = Ret INSIDE ->
  exists e ed ips ip,
    nth_error (edges polygon) e = Some ed /\
    Ray.intersect (shot point) (shape ed) = Ret (Some ips) /\
    In ip ips /\ Point.equalTo ip point = false.
Proof.
  unfold ray_shoot. rewrite constructor_point. cbn [bind]. fold (shot point).
  intros Hres.
  destruct (Box.not_intersect _ _); [discriminate |].
  destruct (List.length _ =? 0); [discriminate |].
  destruct (intersect_edges _ _ _ _ _) as [[found |] | |] eqn:Hfound;
    cbn [bind] in Hres; try discriminate.
  destruct (count_from _ _ _ _ _ _ _) as [counter | |] eqn:Hcount;
    cbn [bind] in Hres; try discriminate.
  destruct (counter mod 2 =? 1) eqn:Hodd; [| discriminate].
  apply count_from_range in Hcount.
  rewrite (Permutation_length (sort_perm compare_x found)) in Hcount.
  assert (Hpos : 0 < List.length found).
  { destruct counter; [discriminate Hodd | lia]. }
  apply collected_are_hits in Hfound.
  destruct Hfound as (added & Hfound & Hadded). cbn [app] in Hfound. subst added.
  destruct found as [| this rest]; [cbn in Hpos; lia |].
  destruct (Hadded this (or_introl eq_refl)) as (Hin & Hne & ips & Hh & Hip).
  apply hits_inv in Hh. destruct Hh as (ed & Hed & Hint).
  exists (edge this), ed, ips, (pt this). auto.
Qed.

(** X19: the even-odd rule in general position.  When the point is within
    the polygon's box and every intersection collected lies in the interior
    of a straight edge, [ray_shoot] returns, whatever the fuel, INSIDE for
    an odd number of intersections and OUTSIDE for an even one. *)
Theorem ray_shoot_even_odd (fuel : nat) (polygon : Polygon) (point : Point.t)
        (found : list intersection) :
  Box.not_intersect (Polygon_box polygon) (Point.box point) = false ->
  intersect_edges polygon (shot point) point
                  (search polygon (Ray.box (shot point))) [] = Ret (Some found) ->
  (forall this, In this found ->
     exists ed s, edge_at polygon (edge this) = Ret ed /\ shape ed = VSegment s /\
                  Point.equalTo (pt this) (Segment.start s) = false /\
                  Point.equalTo (pt this) (Segment.end_ s) = false) ->
  ray_shoot fuel polygon point
  = Ret (if List.length found mod 2 =? 1 then INSIDE else OUTSIDE).
Proof.
  intros Hbox Hfound Hall.
  unfold ray_shoot. rewrite Hbox, constructor_point. cbn [bind]. fold (shot point).
  destruct (List.length (search polygon (Ray.box (shot point))) =? 0) eqn:Hnone.
  - apply Nat.eqb_eq in Hnone. apply length_zero_iff_nil in Hnone.
    rewrite Hnone in Hfound. cbn in Hfound. injection Hfound as <-. reflexivity.
  - rewrite Hfound. cbn [bind].
    rewrite (count_from_straight fuel polygon
               (Line.new (Ray.pt (shot point)) (Ray.norm (shot point)))
               (sort compare_x found)).
    + cbn [bind Nat.add]. now rewrite (Permutation_length (sort_perm compare_x found)).
    + intros this Hin. apply Hall.
      apply (Permutation_in _ (sort_perm compare_x found)). exact Hin.
    + cbn. lia.
Qed.
End MoreCounting.

(** ** Concrete runs of the properties above *)

Lemma constructor_outcome_witness :
  Ray.constructor (H := Table.env) [VPoint (Point.mk 1 2); VVector (Vector.mk 1 0)]
  = Ret (Ray.mk (Point.mk 1 2) (Vector.mk 1 0)) /\
  Ray.pt (Ray.mk (Point.mk 1 2) (Vector.mk 1 0)) = Point.mk 1 2 /\
  Ray.norm (Ray.mk (Point.mk 1 2) (Vector.mk 1 0)) = Vector.mk 1 0.
Proof.
  split; [reflexivity |].
  apply (proj2 (proj2 (proj2 (constructor_outcome (H := Table.env)
                                [VPoint (Point.mk 1 2); VVector (Vector.mk 1 0)])))
               (Ray.mk (Point.mk 1 2) (Vector.mk 1 0))).
  reflexivity.
Defined.

Lemma intersect_segment_points_witness :
  List.length [Point.mk 1 0; Point.mk 0.5 0] <= List.length [Point.mk 0 0; Point.mk 1 0] /\
  (forall p, In p [Point.mk 1 0; Point.mk 0.5 0] ->
             Point_on p (Line.new (Point.mk 0.5 0) (Vector.mk 0 1)) = true /\
             ((In p [Point.mk 0 0; Point.mk 1 0] /\
               Ray.contains (Ray.mk (Point.mk 0.5 0) (Vector.mk 0 1)) p = true) \/
              p = Point.mk 0.5 0)).
Proof.
  apply (intersect_segment_points (H := Table.env)
           (Ray.mk (Point.mk 0.5 0) (Vector.mk 0 1))
           (Segment.mk (Point.mk 0 0) (Point.mk 1 0)));
    vm_compute; reflexivity.
Defined.

Lemma intersect_arc_points_witness :
  List.length [Point.mk 0 1] <= List.length [Point.mk 0 1] /\
  (forall p, In p [Point.mk 0 1] ->
             In p [Point.mk 0 1] /\
             Ray.contains (Ray.mk (Point.mk (-0.5) 1) (Vector.mk 0 1)) p = true).
Proof.
  apply (intersect_arc_points (H := Table.env)
           (Ray.mk (Point.mk (-0.5) 1) (Vector.mk 0 1))
           (Table.upper_half_circle : @Arc Table.env));
    vm_compute; reflexivity.
Defined.

Lemma intersect_reports_origin_twice_witness :
  Ray.intersect (H := Table.env) default_ray
                (VSegment (Segment.mk (Point.mk 0 0) (Point.mk (-1) 0)))
  = Ret (Some [Point.mk 0 0; Point.mk 0 0]).
Proof.
  apply (intersect_reports_origin_twice (H := Table.env) default_ray
           (Segment.mk (Point.mk 0 0) (Point.mk (-1) 0))
           (Point.mk 0 0) (Point.mk (-1) 0));
    vm_compute; reflexivity.
Defined.

Lemma ray_shoot_outside_box_witness :
  RayShoot.ray_shoot (H := Table.env) 0 square_with_speck (Point.mk 2 0.5)
  = Ret OUTSIDE.
Proof.
  apply (ray_shoot_outside_box (H := Table.env)). left. vm_compute. reflexivity.
Defined.

Lemma boundary_iff_hit_witness :
  RayShoot.intersect_edges (H := Table.env) unit_square (shot (Point.mk 1 0.5))
                           (Point.mk 1 0.5) [1] [] = Ret None <->
  exists e ips ip,
    In e [1] /\
    hits (H := Table.env) unit_square (shot (Point.mk 1 0.5)) e = Ret ips /\
    In ip ips /\ Point.equalTo ip (Point.mk 1 0.5) = true.
Proof.
  apply (boundary_iff_hit (H := Table.env)).
  intros e [<- | []]. eexists. vm_compute. reflexivity.
Defined.

Lemma intersections_are_hits_witness :
  RayShoot.intersect_edges (H := Table.env) unit_square (shot (Point.mk 0.5 0.5))
                           (Point.mk 0.5 0.5) [1] []
  = Ret (Some [RayShoot.mk (Point.mk 1 0.5) 1]) /\
  (forall this, In this [RayShoot.mk (Point.mk 1 0.5) 1] ->
     In (RayShoot.edge this) [1] /\
     Point.equalTo (RayShoot.pt this) (Point.mk 0.5 0.5) = false /\
     exists ed ips,
       nth_error (edges (H := Table.env) unit_square) (RayShoot.edge this) = Some ed /\
       Ray.intersect (shot (Point.mk 0.5 0.5)) (shape ed) = Ret (Some ips) /\
       In (RayShoot.pt this) ips).
Proof.
  split; [vm_compute; reflexivity |].
  apply (intersections_are_hits (H := Table.env)). vm_compute. reflexivity.
Defined.

Lemma counter_bounds_witness :
  RayShoot.count_from (H := Table.env) 0 unit_square
    (Line.new (Point.mk 0.5 0.5) (Vector.mk 0 1))
    [RayShoot.mk (Point.mk 1 0.5) 1] 1 0 0 = Ret 1 /\
  0 <= 1 <= 0 + 1.
Proof.
  split; [vm_compute; reflexivity |].
  apply (proj2 (counter_bounds (H := Table.env) 0 unit_square
                  (Line.new (Point.mk 0.5 0.5) (Vector.mk 0 1))
                  [RayShoot.mk (Point.mk 1 0.5) 1] 0 1) 1 0).
  vm_compute. reflexivity.
Defined.

Lemma count_at_already_counted_witness :
  RayShoot.count_at (H := Table.env) 0 diamond x_axis
    [RayShoot.mk (Point.mk 1 0) 0; RayShoot.mk (Point.mk 1 0) 1] 1 1 = Ret 1 /\
  RayShoot.count_at (H := Table.env) 0 diamond x_axis
    [RayShoot.mk (Point.mk 1 0) 1; RayShoot.mk (Point.mk 1 0) 0] 1 1 = Ret 1.
Proof.
  split.
  - apply (proj1 (count_at_already_counted (H := Table.env) 0 diamond x_axis
                    [RayShoot.mk (Point.mk 1 0) 0; RayShoot.mk (Point.mk 1 0) 1] 1 1
                    (RayShoot.mk (Point.mk 1 0) 1) (RayShoot.mk (Point.mk 1 0) 0)
                    {| shape := segment 1 0 1 0; prev := 0; next := 2 |}
                    eq_refl (le_n 1) eq_refl eq_refl eq_refl)
                 (Point.mk 1 0));
      vm_compute; reflexivity.
  - apply (proj2 (count_at_already_counted (H := Table.env) 0 diamond x_axis
                    [RayShoot.mk (Point.mk 1 0) 1; RayShoot.mk (Point.mk 1 0) 0] 1 1
                    (RayShoot.mk (Point.mk 1 0) 0) (RayShoot.mk (Point.mk 1 0) 1)
                    {| shape := segment 0 (-1) 1 0; prev := 4; next := 1 |}
                    eq_refl (le_n 1) eq_refl eq_refl eq_refl)
                 (Point.mk 0 (-1)) (Point.mk 1 0));
      vm_compute; reflexivity.
Defined.

Lemma ray_shoot_boundary_needs_hit_witness :
  RayShoot.ray_shoot (H := Table.env) 0 unit_square (Point.mk 1 0.5) = Ret BOUNDARY /\
  exists e ed ips ip,
    nth_error (edges (H := Table.env) unit_square) e = Some ed /\
    Ray.intersect (shot (Point.mk 1 0.5)) (shape ed) = Ret (Some ips) /\
    In ip ips /\ Point.equalTo ip (Point.mk 1 0.5) = true.
Proof.
  split; [vm_compute; reflexivity |].
  apply (ray_shoot_boundary_needs_hit (H := Table.env) 0). vm_compute. reflexivity.
Defined.

Lemma ray_shoot_inside_needs_hit_witness :
  RayShoot.ray_shoot (H := Table.env) 0 unit_square (Point.mk 0.5 0.5) = Ret INSIDE /\
  exists e ed ips ip,
    nth_error (edges (H := Table.env) unit_square) e = Some ed /\
    Ray.intersect (shot (Point.mk 0.5 0.5)) (shape ed) = Ret (Some ips) /\
    In ip ips /\ Point.equalTo ip (Point.mk 0.5 0.5) = false.
Proof.
  split; [vm_compute; reflexivity |].
  apply (ray_shoot_inside_needs_hit (H := Table.env) 0). vm_compute. reflexivity.
Defined.

Lemma ray_shoot_even_odd_witness :
  RayShoot.ray_shoot (H := Table.env) 0 unit_square (Point.mk 0.5 0.5) = Ret INSIDE.
Proof.
  apply (ray_shoot_even_odd (H := Table.env) 0 unit_square (Point.mk 0.5 0.5)
           [RayShoot.mk (Point.mk 1 0.5) 1]).
  - vm_compute. reflexivity.
  - vm_compute. reflexivity.
  - intros this [<- | []].
    exists {| shape := segment 1 0 1 1; prev := 0; next := 2 |},
           (Segment.mk (Point.mk 1 0) (Point.mk 1 1)).
    repeat split; vm_compute; reflexivity.
Defined.
